(** * PymoNNto-Behaviors: neuron dynamics, convolutional projection and STDP

    A shallow embedding of the behaviours of the repository:

    - [PymoNNtoBehaviors/neurons/LIFs.py]   (module [LIFs]: LIF, ELIF, AELIF)
    - [neurons/LIF.py]                      (module [neurons_LIF])
    - [PymoNNtoBehaviors/connections/convolution.py] (module [Conv2D])
    - [PymoNNtoBehaviors/learning/STDP.py]  (module [STDP])
    - [learning/STDP.py]                    (module [learning_STDP])

    Floating point numbers are modelled by exact rationals ([Q]); rounding,
    infinities and NaN are outside the model.  NumPy arrays are modelled by
    a shape and a row-major list of elements, with NumPy's broadcasting and
    its shape errors written out. *)

From Stdlib Require Import String.
From Stdlib Require Import List Bool Arith ZArith QArith Qminmax Lia.
Import ListNotations.

Set Implicit Arguments.

Close Scope Q_scope.
Open Scope nat_scope.

(** ** Python exceptions and the result of a fallible array operation *)

Inductive exn : Type :=
| ValueError
| IndexError
| TypeError
| ZeroDivisionError.

Inductive result (A : Type) : Type :=
| Ok (a : A)
| Err (e : exn).

Arguments Ok {A} a.
Arguments Err {A} e.

Definition rbind {A B : Type} (m : result A) (k : A -> result B) : result B :=
  match m with
  | Ok a => k a
  | Err e => Err e
  end.

Declare Scope result_scope.
Delimit Scope result_scope with result.
Notation "x <-? m ;; k" := (rbind m (fun x => k))
  (at level 61, m at next level, right associativity) : result_scope.

(** ** Elementwise helpers on plain vectors *)

Fixpoint zipWith {A B C : Type} (f : A -> B -> C) (l1 : list A) (l2 : list B)
  : list C :=
  match l1, l2 with
  | a :: l1', b :: l2' => f a b :: zipWith f l1' l2'
  | _, _ => []
  end.

(** Python's [True]/[False] used as numbers. *)
Definition b2q (b : bool) : Q := if b then 1%Q else 0%Q.

(** A number used as a truth value. *)
Definition q2b (x : Q) : bool := negb (Qeq_bool x 0).

(** [a >= b] and [a > b] on floats. *)
Definition Qge_bool (a b : Q) : bool := Qle_bool b a.
Definition Qgt_bool (a b : Q) : bool := negb (Qle_bool a b).

(** ** A small model of NumPy arrays *)

Module np.

Record ndarray : Type := mk { shape : list nat; data : list Q }.

Definition prod (sh : list nat) : nat := fold_right Nat.mul 1 sh.

Definition ndim (a : ndarray) : nat := length (shape a).

(** A one-dimensional array holding the list [l]. *)
Definition vec (l : list Q) : ndarray := mk [length l] l.

Definition zeros (sh : list nat) : ndarray := mk sh (repeat 0%Q (prod sh)).

(** Strides of a C-contiguous array, counted in elements. *)
Fixpoint strides (sh : list nat) : list nat :=
  match sh with
  | [] => []
  | _ :: r => prod r :: strides r
  end.

(** All multi-indices of a shape, in row-major order. *)
Fixpoint indices (sh : list nat) : list (list nat) :=
  match sh with
  | [] => [[]]
  | d :: r => flat_map (fun i => map (cons i) (indices r)) (seq 0 d)
  end.

Definition offset (idx st : list nat) : nat :=
  fold_right Nat.add 0 (zipWith Nat.mul idx st).

(** [np.lib.stride_tricks.as_strided(a, sh, st)], strides in elements. *)
Definition as_strided (a : ndarray) (sh st : list nat) : ndarray :=
  mk sh (map (fun idx => nth (offset idx st) (data a) 0%Q) (indices sh)).

(** Broadcasting of two shapes, aligned on the last axis. *)
Definition bdim (x y : nat) : option nat :=
  if x =? y then Some x
  else if x =? 1 then Some y
  else if y =? 1 then Some x
  else None.

Fixpoint broadcast_rev (a b : list nat) : option (list nat) :=
  match a, b with
  | [], _ => Some b
  | _, [] => Some a
  | x :: a', y :: b' =>
      match bdim x y, broadcast_rev a' b' with
      | Some d, Some r => Some (d :: r)
      | _, _ => None
      end
  end.

Definition broadcast_shapes (a b : list nat) : option (list nat) :=
  option_map (@rev nat) (broadcast_rev (rev a) (rev b)).

(** Strides that read an array of shape [sh] as one of shape [out]:
    axes of length 1 and the missing leading axes are repeated. *)
Definition bstrides (sh out : list nat) : list nat :=
  repeat 0 (length out - length sh)
  ++ zipWith (fun d s => if d =? 1 then 0 else s) sh (strides sh).

Definition list_nat_eqb (a b : list nat) : bool :=
  if list_eq_dec Nat.eq_dec a b then true else false.

(** [np.broadcast_to(a, out)]. *)
Definition broadcast_to (a : ndarray) (out : list nat) : result ndarray :=
  match broadcast_shapes (shape a) out with
  | Some s =>
      if list_nat_eqb s out
      then Ok (as_strided a out (bstrides (shape a) out))
      else Err ValueError
  | None => Err ValueError
  end.

(** An elementwise binary operation with broadcasting. *)
Definition binop (f : Q -> Q -> Q) (a b : ndarray) : result ndarray :=
  match broadcast_shapes (shape a) (shape b) with
  | Some s =>
      let a' := as_strided a s (bstrides (shape a) s) in
      let b' := as_strided b s (bstrides (shape b) s) in
      Ok (mk s (zipWith f (data a') (data b')))
  | None => Err ValueError
  end.

Definition add := binop Qplus.
Definition mul := binop Qmult.

(** The in-place form [a += b]: the result keeps the shape of [a]. *)
Definition iadd (a b : ndarray) : result ndarray :=
  match broadcast_to b (shape a) with
  | Ok b' => Ok (mk (shape a) (zipWith Qplus (data a) (data b')))
  | Err e => Err e
  end.

(** Operations with a Python scalar. *)
Definition smap (f : Q -> Q) (a : ndarray) : ndarray :=
  mk (shape a) (map f (data a)).

Definition scale (c : Q) (a : ndarray) : ndarray := smap (Qmult c) a.

(** [np.clip(a, lo, hi)] is [minimum(maximum(a, lo), hi)]. *)
Definition clip1 (lo hi x : Q) : Q := Qmin (Qmax x lo) hi.
Definition clip (a : ndarray) (lo hi : Q) : ndarray := smap (clip1 lo hi) a.

Definition reshape (a : ndarray) (sh : list nat) : result ndarray :=
  if prod sh =? length (data a) then Ok (mk sh (data a)) else Err ValueError.

(** [a.reshape(pre + (-1,))]: the last axis is inferred. *)
Definition reshape_infer (a : ndarray) (pre : list nat) : result ndarray :=
  let n := length (data a) in
  let p := prod pre in
  if p =? 0 then Err ValueError
  else if n mod p =? 0 then Ok (mk (pre ++ [n / p]) (data a))
  else Err ValueError.

Definition expand_dims (a : ndarray) (axis : nat) : result ndarray :=
  if axis <=? ndim a
  then Ok (mk (firstn axis (shape a) ++ 1 :: skipn axis (shape a)) (data a))
  else Err ValueError.

Definition flatten (a : ndarray) : list Q := data a.

(** [a.shape[i]]. *)
Definition shape_at (a : ndarray) (i : nat) : result nat :=
  match nth_error (shape a) i with
  | Some d => Ok d
  | None => Err IndexError
  end.

(** [a.shape[-1]]. *)
Definition shape_last (a : ndarray) : result nat :=
  match rev (shape a) with
  | d :: _ => Ok d
  | [] => Err IndexError
  end.

(** Sum of products of two rows. *)
Definition dotsum (l1 l2 : list Q) : Q :=
  fold_right Qplus 0%Q (zipWith Qmult l1 l2).

(** [np.tensordot(a, b, axes=k)]: the last [k] axes of [a] are contracted
    against the first [k] axes of [b]. *)
Definition tensordot (a b : ndarray) (k : nat) : result ndarray :=
  let na := ndim a in
  let nb := ndim b in
  if (k <=? na) && (k <=? nb) then
    let keep_a := firstn (na - k) (shape a) in
    let sum_a := skipn (na - k) (shape a) in
    let sum_b := firstn k (shape b) in
    let keep_b := skipn k (shape b) in
    if list_nat_eqb sum_a sum_b then
      let M := prod keep_a in
      let K := prod sum_a in
      let N := prod keep_b in
      Ok (mk (keep_a ++ keep_b)
            (flat_map (fun m =>
               map (fun n =>
                 dotsum
                   (map (fun j => nth (m * K + j) (data a) 0%Q) (seq 0 K))
                   (map (fun j => nth (j * N + n) (data b) 0%Q) (seq 0 K)))
                 (seq 0 N))
               (seq 0 M)))
    else Err ValueError
  else Err ValueError.

(** [np.lib.stride_tricks.sliding_window_view(x, window_shape)] with the
    default [axis=None]: a window length is needed for every axis of [x]. *)
Definition sliding_window_view (x : ndarray) (window_shape : list nat)
  : result ndarray :=
  if negb (length window_shape =? ndim x) then Err ValueError
  else if existsb (fun p => fst p <? snd p) (combine (shape x) window_shape)
  then Err ValueError
  else
    let out := zipWith (fun d w => d - w + 1) (shape x) window_shape in
    Ok (as_strided x (out ++ window_shape) (strides (shape x) ++ strides (shape x))).

(** The assignment [img[:, p0 : h - p0, p1 : w - p1, :] = src] on a
    four-dimensional [img] of shape [(n, h, w, c)]: [src] is broadcast to
    the shape of the selected block. *)
Definition assign_center (img : ndarray) (p0 p1 : nat) (src : ndarray)
  : result ndarray :=
  match shape img with
  | [n; h; w; c] =>
      let bh := (h - p0) - p0 in
      let bw := (w - p1) - p1 in
      match broadcast_to src [n; bh; bw; c] with
      | Ok s =>
          Ok (mk (shape img)
                (map (fun idx =>
                   match idx with
                   | [i; y; x; k] =>
                       if (p0 <=? y) && (y <? h - p0) && (p1 <=? x) && (x <? w - p1)
                       then nth (offset [i; y - p0; x - p1; k] (strides [n; bh; bw; c]))
                                (data s) 0%Q
                       else nth (offset idx (strides (shape img))) (data img) 0%Q
                   | _ => 0%Q
                   end) (indices (shape img))))
      | Err e => Err e
      end
  | _ => Err IndexError
  end.

End np.

(** [int(np.sqrt(n))] on a population size. *)
Definition int_sqrt (n : nat) : nat := Nat.sqrt n.

(** Python's [a // b] on non-negative integers. *)
Definition floordiv (a b : nat) : result nat :=
  if b =? 0 then Err ZeroDivisionError else Ok (a / b).

(** ** Populations *)

Module NeuronGroup.

(** The attributes of a population that the behaviours read or write.
    [s] is the activity vector read by the convolutional projection. *)
Record t : Type := mk {
  size : nat;
  v : list Q;
  I : list Q;
  spikes : list bool;
  trace : list Q;
  A : list Q;
  s : list Q;
  tau : Q;
  v_rest : Q;
  v_reset : Q;
  threshold : Q;
  R : Q;
  sharpness : Q;
  theta_rh : Q;
  alpha : Q;
  beta : Q;
  tau_a : Q;
  dt : Q
}.

Definition set_v (x : list Q) (n : t) : t :=
  mk (size n) x (I n) (spikes n) (trace n) (A n) (s n) (tau n) (v_rest n)
     (v_reset n) (threshold n) (R n) (sharpness n) (theta_rh n) (alpha n)
     (beta n) (tau_a n) (dt n).

Definition set_I (x : list Q) (n : t) : t :=
  mk (size n) (v n) x (spikes n) (trace n) (A n) (s n) (tau n) (v_rest n)
     (v_reset n) (threshold n) (R n) (sharpness n) (theta_rh n) (alpha n)
     (beta n) (tau_a n) (dt n).

Definition set_spikes (x : list bool) (n : t) : t :=
  mk (size n) (v n) (I n) x (trace n) (A n) (s n) (tau n) (v_rest n)
     (v_reset n) (threshold n) (R n) (sharpness n) (theta_rh n) (alpha n)
     (beta n) (tau_a n) (dt n).

Definition set_trace (x : list Q) (n : t) : t :=
  mk (size n) (v n) (I n) (spikes n) x (A n) (s n) (tau n) (v_rest n)
     (v_reset n) (threshold n) (R n) (sharpness n) (theta_rh n) (alpha n)
     (beta n) (tau_a n) (dt n).

Definition set_A (x : list Q) (n : t) : t :=
  mk (size n) (v n) (I n) (spikes n) (trace n) x (s n) (tau n) (v_rest n)
     (v_reset n) (threshold n) (R n) (sharpness n) (theta_rh n) (alpha n)
     (beta n) (tau_a n) (dt n).

Definition set_dt (x : Q) (n : t) : t :=
  mk (size n) (v n) (I n) (spikes n) (trace n) (A n) (s n) (tau n) (v_rest n)
     (v_reset n) (threshold n) (R n) (sharpness n) (theta_rh n) (alpha n)
     (beta n) (tau_a n) x.

(** [setattr(neurons, name, x)] for a scalar configuration value.  A scalar
    input current is held as the vector it broadcasts to. *)
Definition setattr (n : t) (name : string) (x : Q) : t :=
  if String.eqb name "tau" then
    mk (size n) (v n) (I n) (spikes n) (trace n) (A n) (s n) x (v_rest n)
       (v_reset n) (threshold n) (R n) (sharpness n) (theta_rh n) (alpha n)
       (beta n) (tau_a n) (dt n)
  else if String.eqb name "v_rest" then
    mk (size n) (v n) (I n) (spikes n) (trace n) (A n) (s n) (tau n) x
       (v_reset n) (threshold n) (R n) (sharpness n) (theta_rh n) (alpha n)
       (beta n) (tau_a n) (dt n)
  else if String.eqb name "v_reset" then
    mk (size n) (v n) (I n) (spikes n) (trace n) (A n) (s n) (tau n) (v_rest n)
       x (threshold n) (R n) (sharpness n) (theta_rh n) (alpha n)
       (beta n) (tau_a n) (dt n)
  else if String.eqb name "threshold" then
    mk (size n) (v n) (I n) (spikes n) (trace n) (A n) (s n) (tau n) (v_rest n)
       (v_reset n) x (R n) (sharpness n) (theta_rh n) (alpha n)
       (beta n) (tau_a n) (dt n)
  else if String.eqb name "R" then
    mk (size n) (v n) (I n) (spikes n) (trace n) (A n) (s n) (tau n) (v_rest n)
       (v_reset n) (threshold n) x (sharpness n) (theta_rh n) (alpha n)
       (beta n) (tau_a n) (dt n)
  else if String.eqb name "sharpness" then
    mk (size n) (v n) (I n) (spikes n) (trace n) (A n) (s n) (tau n) (v_rest n)
       (v_reset n) (threshold n) (R n) x (theta_rh n) (alpha n)
       (beta n) (tau_a n) (dt n)
  else if String.eqb name "theta_rh" then
    mk (size n) (v n) (I n) (spikes n) (trace n) (A n) (s n) (tau n) (v_rest n)
       (v_reset n) (threshold n) (R n) (sharpness n) x (alpha n)
       (beta n) (tau_a n) (dt n)
  else if String.eqb name "alpha" then
    mk (size n) (v n) (I n) (spikes n) (trace n) (A n) (s n) (tau n) (v_rest n)
       (v_reset n) (threshold n) (R n) (sharpness n) (theta_rh n) x
       (beta n) (tau_a n) (dt n)
  else if String.eqb name "beta" then
    mk (size n) (v n) (I n) (spikes n) (trace n) (A n) (s n) (tau n) (v_rest n)
       (v_reset n) (threshold n) (R n) (sharpness n) (theta_rh n) (alpha n)
       x (tau_a n) (dt n)
  else if String.eqb name "tau_a" then
    mk (size n) (v n) (I n) (spikes n) (trace n) (A n) (s n) (tau n) (v_rest n)
       (v_reset n) (threshold n) (R n) (sharpness n) (theta_rh n) (alpha n)
       (beta n) x (dt n)
  else if String.eqb name "dt" then set_dt x n
  else if String.eqb name "I" then set_I (repeat x (size n)) n
  else n.

(** The host's vector helper [neurons.get_neuron_vec(mode=...)]. *)
Inductive vec_mode : Type := zeros | ones.

Definition fill (m : vec_mode) : Q :=
  match m with
  | zeros => 0%Q
  | ones => 1%Q
  end.

Definition get_neuron_vec (n : t) (mode : vec_mode) : list Q :=
  repeat (fill mode) (size n).

End NeuronGroup.

(** ** Behaviours *)

(** A behaviour object: the keyword arguments it was built with, and its
    tags. *)
Record Behaviour : Type := mkBehaviour {
  init_kwargs : list (string * Q);
  tags : list string
}.

Definition add_tag (tag : string) (self : Behaviour) : Behaviour :=
  mkBehaviour (init_kwargs self) (tags self ++ [tag]).

(** The host's [set_init_attrs_as_variables]: every keyword argument of the
    behaviour becomes an attribute of the population. *)
Definition set_init_attrs_as_variables (self : Behaviour) (n : NeuronGroup.t)
  : NeuronGroup.t :=
  fold_left (fun n kv => NeuronGroup.setattr n (fst kv) (snd kv))
            (init_kwargs self) n.

(** *** PymoNNtoBehaviors/neurons/LIFs.py *)

(** The arrays [v], [I], [spikes] and [A] of a population have one entry
    per neuron, as the host allocates them, and the elementwise operations
    of the dynamics are written with [zipWith]: on arrays of different
    lengths NumPy raises or broadcasts, which these definitions do not
    follow.  Division is that of [Q]: the definitions agree with the source
    where the divisors [tau], [tau_a] and [sharpness] are not zero; at zero
    floats give an infinity or NaN.  Statements that depend on either carry
    the equal lengths and the non-zero divisor as hypotheses. *)

Module LIFs.

Import NeuronGroup.
Local Open Scope Q_scope.

Module LIF.

Definition _initialize (self : Behaviour) (neurons : t) : t :=
  let neurons := set_init_attrs_as_variables self neurons in
  let neurons :=
    set_v (map (fun x => x * v_rest neurons) (get_neuron_vec neurons ones))
          neurons in
  set_spikes (map q2b (get_neuron_vec neurons zeros)) neurons.

Definition set_variables (self : Behaviour) (neurons : t) : Behaviour * t :=
  let self := add_tag "LIF" self in
  (self, _initialize self neurons).

Definition _dv_dt (neurons : t) : list Q :=
  let delta_v := map (fun x => v_rest neurons - x) (v neurons) in
  let ri := map (fun i => R neurons * i) (I neurons) in
  zipWith Qplus delta_v ri.

Definition _fire (neurons : t) : t :=
  let neurons :=
    set_spikes (map (fun x => Qge_bool x (threshold neurons)) (v neurons))
               neurons in
  set_v (zipWith (fun (sp : bool) x => if sp then v_reset neurons else x)
                 (spikes neurons) (v neurons))
        neurons.

Definition new_iteration (neurons : t) : t :=
  let neurons := _fire neurons in
  set_v (zipWith Qplus (v neurons)
           (map (fun d => d / tau neurons) (_dv_dt neurons)))
        neurons.

End LIF.

Module ELIF.
Section WithExp.

(** [np.exp]. *)
Variable exp : Q -> Q.

Definition set_variables (self : Behaviour) (neurons : t) : Behaviour * t :=
  let self := add_tag "ELIF" self in
  (self, LIF._initialize self neurons).

Definition _dv_dt (neurons : t) : list Q :=
  let simple := LIF._dv_dt neurons in
  let v_m :=
    map (fun x => (x - theta_rh neurons) / sharpness neurons) (v neurons) in
  let nonlinear_f := map (fun x => sharpness neurons * exp x) v_m in
  zipWith Qplus simple nonlinear_f.

Definition new_iteration (neurons : t) : t :=
  let neurons := LIF._fire neurons in
  set_v (zipWith Qplus (v neurons)
           (map (fun d => d / tau neurons) (_dv_dt neurons)))
        neurons.

End WithExp.
End ELIF.

Module AELIF.
Section WithExp.

Variable exp : Q -> Q.

Definition set_variables (self : Behaviour) (neurons : t) : Behaviour * t :=
  let self := add_tag "AELIF" self in
  let neurons := LIF._initialize self neurons in
  (self, set_A (get_neuron_vec neurons zeros) neurons).

Definition _dA_dt (neurons : t) : list Q :=
  let spike_adaptation :=
    map (fun sp => beta neurons * tau_a neurons * b2q sp) (spikes neurons) in
  let sub_thresh_adaptation :=
    map (fun x => alpha neurons * (x - v_rest neurons)) (v neurons) in
  zipWith Qminus (zipWith Qplus sub_thresh_adaptation spike_adaptation)
          (A neurons).

Definition new_iteration (neurons : t) : t :=
  let neurons := LIF._fire neurons in
  let dv_dt :=
    zipWith Qminus (ELIF._dv_dt exp neurons)
            (map (fun a => R neurons * a) (A neurons)) in
  let neurons :=
    set_v (zipWith Qplus (v neurons) (map (fun d => d / tau neurons) dv_dt))
          neurons in
  set_A (map (fun d => d / tau_a neurons) (_dA_dt neurons)) neurons.

End WithExp.
End AELIF.

End LIFs.

(** *** neurons/LIF.py *)

(** The same conventions hold here: arrays of one length, [tau] not zero. *)

Module neurons_LIF.
Section Host.

Import NeuronGroup.
Local Open Scope Q_scope.

(** The mode of the host's [get_neuron_vec()] called without argument. *)
Variable default_mode : vec_mode.

Definition set_variables (self : Behaviour) (neurons : t) : Behaviour * t :=
  let self := add_tag "LIF" self in
  let neurons := set_init_attrs_as_variables self neurons in
  let neurons :=
    set_v (map (fun x => x * v_rest neurons)
               (get_neuron_vec neurons default_mode))
          neurons in
  let neurons :=
    set_spikes (map (fun x => Qgt_bool x (threshold neurons))
                    (get_neuron_vec neurons default_mode))
               neurons in
  (self, set_dt 1 neurons).

Definition new_iteration (neurons : t) : t :=
  let dv_dt :=
    zipWith Qplus (map (fun x => v_rest neurons - x) (v neurons))
            (map (fun i => R neurons * i) (I neurons)) in
  let neurons :=
    set_v (zipWith Qplus (v neurons)
             (map (fun d => d * dt neurons / tau neurons) dv_dt))
          neurons in
  let neurons :=
    set_spikes (map (fun x => Qge_bool x (threshold neurons)) (v neurons))
               neurons in
  set_v (zipWith (fun (sp : bool) x => if sp then v_reset neurons else x)
                 (spikes neurons) (v neurons))
        neurons.

End Host.
End neurons_LIF.

(** ** Projections and the network store *)

(** The [pad] attribute of a projection: a truth value as configured, a
    pair once [Conv2D.set_variables] has run. *)
Inductive pad_attr : Type :=
| PadFlag (b : bool)
| PadPair (p0 p1 : nat).

(** The value of a keyword argument of the behaviour of a projection: a
    float, an integer, a truth value or a pair of integers. *)
Inductive attr : Type :=
| AFloat (x : Q)
| AInt (n : nat)
| ABool (b : bool)
| APair (a b : nat).

Module SynapseGroup.

(** [src] and [dst] name populations of the network: a projection owns
    neither, and both may name the same population. *)
Record t : Type := mk {
  src : nat;
  dst : nat;
  W : np.ndarray;
  w_min : Q;
  w_max : Q;
  tags : list string;
  kernel_size : nat * nat;
  n_filters : nat;
  pad : pad_attr;
  tau_plus : Q;
  tau_minus : Q;
  a_plus : Q;
  a_minus : Q;
  dt : Q
}.

Definition set_W (x : np.ndarray) (y : t) : t :=
  mk (src y) (dst y) x (w_min y) (w_max y) (tags y) (kernel_size y)
     (n_filters y) (pad y) (tau_plus y) (tau_minus y) (a_plus y) (a_minus y)
     (dt y).

Definition set_pad (x : pad_attr) (y : t) : t :=
  mk (src y) (dst y) (W y) (w_min y) (w_max y) (tags y) (kernel_size y)
     (n_filters y) x (tau_plus y) (tau_minus y) (a_plus y) (a_minus y)
     (dt y).

(** [typed name a]: the assignment [setattr(synapses, name, a)] stays
    within the record.  The value has the type of the attribute it names
    ([pad] is configured as a flag or as a pair), or the name is no
    attribute of the record; [src], [dst], [W] and [tags] are not
    configuration values. *)
Definition typed (name : string) (a : attr) : bool :=
  if existsb (String.eqb name)
       ["w_min"; "w_max"; "tau_plus"; "tau_minus"; "a_plus"; "a_minus";
        "dt"]%string
  then match a with AFloat _ => true | _ => false end
  else if String.eqb name "n_filters"
  then match a with AInt _ => true | _ => false end
  else if String.eqb name "kernel_size"
  then match a with APair _ _ => true | _ => false end
  else if String.eqb name "pad"
  then match a with ABool _ | APair _ _ => true | _ => false end
  else negb (existsb (String.eqb name) ["src"; "dst"; "W"; "tags"]%string).

Definition well_typed (kwargs : list (string * attr)) : bool :=
  forallb (fun kv => typed (fst kv) (snd kv)) kwargs.

(** [setattr(synapses, name, a)] for a configuration value with
    [typed name a]; outside of it the record is left as it is, where the
    source would replace the attribute by a value of another type. *)
Definition setattr (y : t) (name : string) (a : attr) : t :=
  match a with
  | AFloat x =>
      if String.eqb name "w_min" then
        mk (src y) (dst y) (W y) x (w_max y) (tags y) (kernel_size y)
           (n_filters y) (pad y) (tau_plus y) (tau_minus y) (a_plus y)
           (a_minus y) (dt y)
      else if String.eqb name "w_max" then
        mk (src y) (dst y) (W y) (w_min y) x (tags y) (kernel_size y)
           (n_filters y) (pad y) (tau_plus y) (tau_minus y) (a_plus y)
           (a_minus y) (dt y)
      else if String.eqb name "tau_plus" then
        mk (src y) (dst y) (W y) (w_min y) (w_max y) (tags y) (kernel_size y)
           (n_filters y) (pad y) x (tau_minus y) (a_plus y)
           (a_minus y) (dt y)
      else if String.eqb name "tau_minus" then
        mk (src y) (dst y) (W y) (w_min y) (w_max y) (tags y) (kernel_size y)
           (n_filters y) (pad y) (tau_plus y) x (a_plus y)
           (a_minus y) (dt y)
      else if String.eqb name "a_plus" then
        mk (src y) (dst y) (W y) (w_min y) (w_max y) (tags y) (kernel_size y)
           (n_filters y) (pad y) (tau_plus y) (tau_minus y) x
           (a_minus y) (dt y)
      else if String.eqb name "a_minus" then
        mk (src y) (dst y) (W y) (w_min y) (w_max y) (tags y) (kernel_size y)
           (n_filters y) (pad y) (tau_plus y) (tau_minus y) (a_plus y)
           x (dt y)
      else if String.eqb name "dt" then
        mk (src y) (dst y) (W y) (w_min y) (w_max y) (tags y) (kernel_size y)
           (n_filters y) (pad y) (tau_plus y) (tau_minus y) (a_plus y)
           (a_minus y) x
      else y
  | AInt n =>
      if String.eqb name "n_filters" then
        mk (src y) (dst y) (W y) (w_min y) (w_max y) (tags y) (kernel_size y)
           n (pad y) (tau_plus y) (tau_minus y) (a_plus y) (a_minus y) (dt y)
      else y
  | ABool b =>
      if String.eqb name "pad" then set_pad (PadFlag b) y else y
  | APair a b =>
      if String.eqb name "kernel_size" then
        mk (src y) (dst y) (W y) (w_min y) (w_max y) (tags y) (a, b)
           (n_filters y) (pad y) (tau_plus y) (tau_minus y) (a_plus y)
           (a_minus y) (dt y)
      else if String.eqb name "pad" then set_pad (PadPair a b) y
      else y
  end.

(** The host's [set_init_attrs_as_variables] on a projection: every keyword
    argument becomes an attribute of the projection, in order. *)
Definition set_init_attrs_as_variables (kwargs : list (string * attr)) (y : t)
  : t :=
  fold_left (fun y kv => setattr y (fst kv) (snd kv)) kwargs y.

End SynapseGroup.

(** The keyword arguments of a behaviour object, all floats, as keyword
    arguments for a projection. *)
Definition float_kwargs (self : Behaviour) : list (string * attr) :=
  map (fun kv => (fst kv, AFloat (snd kv))) (init_kwargs self).

Record Network : Type := mkNetwork {
  groups : nat -> NeuronGroup.t;
  synapses : SynapseGroup.t
}.

(** Behaviours of a projection run in a state monad over the network, in
    which a raised exception keeps the writes made before it. *)
Definition M (A : Type) : Type := Network -> result A * Network.

Definition ret {A : Type} (a : A) : M A := fun st => (Ok a, st).

Definition bind {A B : Type} (m : M A) (k : A -> M B) : M B :=
  fun st =>
    match m st with
    | (Ok a, st') => k a st'
    | (Err e, st') => (Err e, st')
    end.

Definition lift {A : Type} (r : result A) : M A := fun st => (r, st).

Declare Scope M_scope.
Delimit Scope M_scope with M.
Notation "x <- m ;; k" := (bind m (fun x => k))
  (at level 61, m at next level, right associativity) : M_scope.
Notation "m1 ;; m2" := (bind m1 (fun _ => m2))
  (at level 61, right associativity) : M_scope.

Definition get_group (id : nat) : M NeuronGroup.t :=
  fun st => (Ok (groups st id), st).

Definition put_group (id : nat) (g : NeuronGroup.t) : M unit :=
  fun st =>
    (Ok tt, mkNetwork (fun j => if j =? id then g else groups st j) (synapses st)).

Definition get_synapses : M SynapseGroup.t :=
  fun st => (Ok (synapses st), st).

Definition put_synapses (y : SynapseGroup.t) : M unit :=
  fun st => (Ok tt, mkNetwork (groups st) y).

(** The pair held by [synapses.pad]; a truth value cannot be indexed or
    unpacked. *)
Definition pad_pair (p : pad_attr) : result (nat * nat) :=
  match p with
  | PadPair p0 p1 => Ok (p0, p1)
  | PadFlag _ => Err TypeError
  end.

Definition pad_truth (p : pad_attr) : bool :=
  match p with
  | PadFlag b => b
  | PadPair _ _ => true
  end.

(** *** PymoNNtoBehaviors/connections/convolution.py *)

Module Conv2D.

(** The behaviour object, with the [is1d] attribute it gives itself. *)
Record self_t : Type := mkSelf {
  base : Behaviour;
  is1d : bool
}.

Definition __conv2d (src kernels : np.ndarray) (padding : pad_attr)
  : result np.ndarray :=
  (s1 <-? np.shape_at src 1 ;;
   p <-? pad_pair padding ;;
   s2 <-? np.shape_at src 2 ;;
   let h := s1 + fst p * 2 in
   let w := s2 + snd p * 2 in
   s0 <-? np.shape_at src 0 ;;
   c <-? np.shape_last src ;;
   let img := np.zeros [s0; h; w; c] in
   img <-? np.assign_center img (fst p) (snd p) src ;;
   k0 <-? np.shape_at kernels 0 ;;
   let h_out := (Z.of_nat s1 - Z.of_nat k0 + 2 * Z.of_nat (fst p) + 1)%Z in
   k1 <-? np.shape_at kernels 1 ;;
   let w_out := (Z.of_nat s2 - Z.of_nat k1 + 2 * Z.of_nat (snd p) + 1)%Z in
   if (h_out <? 0)%Z || (w_out <? 0)%Z then Err ValueError
   else
     let st := np.strides (np.shape img) in
     let inp :=
       np.as_strided img
         [s0; Z.to_nat h_out; Z.to_nat w_out; k0; k1; c]
         (firstn 3 st ++ skipn 1 st) in
     np.tensordot inp kernels 3)%result.

Section Init.

(** [np.random.uniform(low, high, shape)]. *)
Variable uniform : Q -> Q -> list nat -> np.ndarray.

(** The keyword arguments the behaviour was built with that are not
    floats ([kernel_size], [n_filters], [pad]); the floats ([w_min],
    [w_max]) are those of [base]. *)
Variable kwargs : list (string * attr).

Definition set_variables (self : self_t) : M self_t :=
  (let self := mkSelf (add_tag "conv2d" (base self)) (is1d self) in
   y <- get_synapses ;;
   let y :=
     SynapseGroup.set_init_attrs_as_variables
       (float_kwargs (base self) ++ kwargs) y in
   let y :=
     if pad_truth (SynapseGroup.pad y)
     then SynapseGroup.set_pad
            (PadPair (fst (SynapseGroup.kernel_size y) / 2)
                     (snd (SynapseGroup.kernel_size y) / 2)) y
     else SynapseGroup.set_pad (PadPair 0 0) y in
   put_synapses y ;;
   src <- get_group (SynapseGroup.src y) ;;
   let r := int_sqrt (NeuronGroup.size src) in
   inp <- lift (np.reshape (np.vec (NeuronGroup.s src)) [r; r]) ;;
   let self :=
     mkSelf (base self)
            (length (NeuronGroup.s src) =? length (np.data inp)) in
   c <- lift (floordiv (length (NeuronGroup.s src)) (length (np.data inp))) ;;
   put_synapses
     (SynapseGroup.set_W
        (uniform (SynapseGroup.w_min y) (SynapseGroup.w_max y)
           [fst (SynapseGroup.kernel_size y);
            snd (SynapseGroup.kernel_size y);
            c;
            SynapseGroup.n_filters y]) y) ;;
   ret self)%M.

End Init.

(** The current that one forward pass adds to [dst.I]. *)
Definition forward (self : self_t) (src : NeuronGroup.t) (y : SynapseGroup.t)
  : result (list Q) :=
  (let r := int_sqrt (NeuronGroup.size src) in
   inp <-? np.reshape (np.vec (NeuronGroup.s src)) [r; r] ;;
   inp <-? (if is1d self then np.expand_dims inp 2 else Ok inp) ;;
   x <-? np.expand_dims inp 0 ;;
   out <-? __conv2d x (SynapseGroup.W y) (SynapseGroup.pad y) ;;
   Ok (np.flatten out))%result.

Definition new_iteration (self : self_t) : M unit :=
  (y <- get_synapses ;;
   src <- get_group (SynapseGroup.src y) ;;
   cur <- lift (forward self src y) ;;
   dst <- get_group (SynapseGroup.dst y) ;;
   i' <- lift (np.iadd (np.vec (NeuronGroup.I dst)) (np.vec cur)) ;;
   put_group (SynapseGroup.dst y) (NeuronGroup.set_I (np.data i') dst))%M.

End Conv2D.

(** *** PymoNNtoBehaviors/learning/STDP.py *)

Module STDP.

Local Open Scope Q_scope.

Definition conv2d_update : M (np.ndarray * np.ndarray) :=
  (y <- get_synapses ;;
   src <- get_group (SynapseGroup.src y) ;;
   dst <- get_group (SynapseGroup.dst y) ;;
   let src_spikes := np.vec (map b2q (NeuronGroup.spikes src)) in
   let src_trace := np.vec (NeuronGroup.trace src) in
   let dst_spikes := np.vec (map b2q (NeuronGroup.spikes dst)) in
   let dst_trace := np.vec (NeuronGroup.trace dst) in
   p <- lift (pad_pair (SynapseGroup.pad y)) ;;
   let p0 := fst p in
   let p1 := snd p in
   let h_in := (int_sqrt (NeuronGroup.size src) + 2 * p0)%nat in
   let w_in := (int_sqrt (NeuronGroup.size src) + 2 * p1)%nat in
   c_in <- lift (floordiv (NeuronGroup.size src) (h_in * w_in)) ;;
   pre_spikes <-
     lift (np.assign_center (np.zeros [1%nat; h_in; w_in; c_in]) p0 p1 src_spikes) ;;
   pre_trace <-
     lift (np.assign_center (np.zeros [1%nat; h_in; w_in; c_in]) p0 p1 src_trace) ;;
   let window :=
     [fst (SynapseGroup.kernel_size y); snd (SynapseGroup.kernel_size y)] in
   src_spikes <- lift (np.sliding_window_view pre_spikes window) ;;
   src_trace <- lift (np.sliding_window_view pre_trace window) ;;
   dst_spikes <-
     lift (np.reshape_infer dst_spikes [1%nat; SynapseGroup.n_filters y]) ;;
   dst_trace <-
     lift (np.reshape_infer dst_trace [1%nat; SynapseGroup.n_filters y]) ;;
   dw_minus <-
     lift (np.mul (np.scale (- SynapseGroup.a_minus y) dst_trace) src_spikes) ;;
   dw_plus <-
     lift (np.mul (np.scale (SynapseGroup.a_plus y) src_trace) dst_spikes) ;;
   ret (dw_minus, dw_plus))%M.

Section Host.

Variable default_mode : NeuronGroup.vec_mode.

Definition set_variables (self : Behaviour) : M Behaviour :=
  (let self := add_tag "STDP" self in
   y <- get_synapses ;;
   let y := SynapseGroup.set_init_attrs_as_variables (float_kwargs self) y in
   put_synapses y ;;
   src <- get_group (SynapseGroup.src y) ;;
   put_group (SynapseGroup.src y)
     (NeuronGroup.set_trace (NeuronGroup.get_neuron_vec src default_mode) src) ;;
   dst <- get_group (SynapseGroup.dst y) ;;
   put_group (SynapseGroup.dst y)
     (NeuronGroup.set_trace (NeuronGroup.get_neuron_vec dst default_mode) dst) ;;
   ret self)%M.

End Host.

(** [trace += d * dt] on the population [id], written in place. *)
Definition iadd_trace (id : nat) (d : np.ndarray) (dt : Q) : M unit :=
  (g <- get_group id ;;
   t' <- lift (np.iadd (np.vec (NeuronGroup.trace g))
                       (np.smap (fun x => x * dt) d)) ;;
   put_group id (NeuronGroup.set_trace (np.data t') g))%M.

(** The two trace updates that open a tick. *)
Definition update_traces : M unit :=
  (y <- get_synapses ;;
   src <- get_group (SynapseGroup.src y) ;;
   dx <- lift (np.add
                 (np.smap (fun x => - x / SynapseGroup.tau_plus y)
                          (np.vec (NeuronGroup.trace src)))
                 (np.vec (map b2q (NeuronGroup.spikes src)))) ;;
   dst <- get_group (SynapseGroup.dst y) ;;
   dy <- lift (np.add
                 (np.smap (fun x => - x / SynapseGroup.tau_minus y)
                          (np.vec (NeuronGroup.trace dst)))
                 (np.vec (map b2q (NeuronGroup.spikes dst)))) ;;
   iadd_trace (SynapseGroup.src y) dx (SynapseGroup.dt y) ;;
   iadd_trace (SynapseGroup.dst y) dy (SynapseGroup.dt y))%M.

(** The dense branch: products of the trace and spike vectors. *)
Definition dense_update : M (np.ndarray * np.ndarray) :=
  (y <- get_synapses ;;
   src <- get_group (SynapseGroup.src y) ;;
   dst <- get_group (SynapseGroup.dst y) ;;
   dw_minus <-
     lift (np.mul (np.scale (- SynapseGroup.a_minus y)
                            (np.vec (NeuronGroup.trace dst)))
                  (np.vec (map b2q (NeuronGroup.spikes src)))) ;;
   dw_plus <-
     lift (np.mul (np.scale (SynapseGroup.a_plus y)
                            (np.vec (NeuronGroup.trace src)))
                  (np.vec (map b2q (NeuronGroup.spikes dst)))) ;;
   ret (dw_minus, dw_plus))%M.

(** [W = np.clip(W + (dw_plus + dw_minus) * dt, w_min, w_max)]. *)
Definition apply_dw (dw : np.ndarray * np.ndarray) : M unit :=
  (y <- get_synapses ;;
   d <- lift (np.add (snd dw) (fst dw)) ;;
   w <- lift (np.add (SynapseGroup.W y)
                     (np.smap (fun x => x * SynapseGroup.dt y) d)) ;;
   put_synapses
     (SynapseGroup.set_W
        (np.clip w (SynapseGroup.w_min y) (SynapseGroup.w_max y)) y))%M.

Definition new_iteration : M unit :=
  (update_traces ;;
   y <- get_synapses ;;
   dw <- (if existsb (String.eqb "conv2d") (SynapseGroup.tags y)
          then conv2d_update
          else dense_update) ;;
   apply_dw dw)%M.

End STDP.

(** *** learning/STDP.py *)

Module learning_STDP.

Section Host.

Variable default_mode : NeuronGroup.vec_mode.

Definition set_variables (self : Behaviour) : M Behaviour :=
  STDP.set_variables default_mode self.

End Host.

Definition new_iteration : M unit :=
  (STDP.update_traces ;;
   dw <- STDP.dense_update ;;
   STDP.apply_dw dw)%M.

End learning_STDP.

(** ** Concrete populations and projections *)

Module Examples.

Local Open Scope Q_scope.

(** A population of one neuron with the parameters of the test suite:
    [v_rest = v_reset = -65], [threshold = -55], [R = 1], [tau = 10],
    input current 80, and the given voltage and adaptation. *)
Definition neuron (v0 a0 : Q) (sp : bool) : NeuronGroup.t :=
  NeuronGroup.mk 1 [v0] [80] [sp] [0] [a0] [0]
    10 (-65) (-65) (-55) 1 5 (-58) 1 2 4 1.

(** The neuron at rest. *)
Definition at_rest : NeuronGroup.t := neuron (-65) 0 false.

(** The neuron one integration step before the threshold is detected. *)
Definition above_threshold : NeuronGroup.t := neuron (-249 # 5) 0 false.

(** The keyword arguments of the LIF behaviour in the test suite. *)
Definition lif_kwargs : Behaviour :=
  mkBehaviour
    [("v_rest"%string, -65); ("v_reset"%string, -65);
     ("threshold"%string, -55); ("R"%string, 1); ("I"%string, 80);
     ("tau"%string, 10)]
    [].

(** A population as the host hands it to [set_variables]: only its size
    is set. *)
Definition blank (n : nat) : NeuronGroup.t :=
  NeuronGroup.mk n [] [] [] [] [] [] 0 0 0 0 0 0 0 0 0 0 0.

Fixpoint iterate (f : NeuronGroup.t -> NeuronGroup.t) (k : nat)
  (n : NeuronGroup.t) : NeuronGroup.t :=
  match k with
  | O => n
  | S k' => f (iterate f k' n)
  end.


(** A population for a projection: its size, spikes, trace, input
    current and activity. *)
Definition pop (sz : nat) (sp : list bool) (tr cur act : list Q)
  : NeuronGroup.t :=
  NeuronGroup.mk sz [] cur sp tr [] act 10 (-65) (-65) (-55) 1 5 (-58) 1 2 4 1.

(** A projection from population 0 to population 1, with weights bounded
    by 0 and 1. *)
Definition projection (W : np.ndarray) (tags : list string)
  (kernel_size : nat * nat) (n_filters : nat) (pad : pad_attr)
  : SynapseGroup.t :=
  SynapseGroup.mk 0 1 W 0 1 tags kernel_size n_filters pad
    20 20 (1 # 10) (1 # 20) 1.

Definition network (a b : NeuronGroup.t) (y : SynapseGroup.t) : Network :=
  mkNetwork (fun j => if (j =? 0)%nat then a else b) y.

(** Two populations of two neurons each, with traces at zero; source
    neuron 0 and destination neuron 1 spike.  All weights are 1/2. *)
Definition dense_2_2 : Network :=
  network (pop 2 [true; false] [0; 0] [0; 0] [0; 0])
          (pop 2 [false; true] [0; 0] [0; 0] [0; 0])
          (projection (np.mk [2; 2]%nat [1 # 2; 1 # 2; 1 # 2; 1 # 2])
                      [] (1, 1)%nat 1 (PadFlag false)).

(** Two source neurons and three destination neurons. *)
Definition dense_2_3 : Network :=
  network (pop 2 [true; false] [0; 0] [0; 0] [0; 0])
          (pop 3 [false; true; false] [0; 0; 0] [0; 0; 0] [0; 0; 0])
          (projection
             (np.mk [3; 2]%nat [1 # 2; 1 # 2; 1 # 2; 1 # 2; 1 # 2; 1 # 2])
             [] (1, 1)%nat 1 (PadFlag false)).

(** The smallest convolutional projection: one source neuron, a kernel of
    one weight, one filter, no padding, tagged as convolutional. *)
Definition conv_1_1 : Network :=
  network (pop 1 [true] [0] [0] [1])
          (pop 1 [true] [0] [0] [0])
          (projection (np.mk [1; 1; 1; 1]%nat [1 # 2])
                      ["conv2d"%string] (1, 1)%nat 1 (PadPair 0 0)).

(** A source population of four neurons, read as a 2 x 2 image. *)
Definition image_2_2 : NeuronGroup.t := pop 4 [] [] [] [1; 2; 3; 4].

(** A convolutional projection with a kernel of the single weight [k]. *)
Definition pointwise (k : Q) : SynapseGroup.t :=
  projection (np.mk [1; 1; 1; 1]%nat [k]) ["conv2d"%string] (1, 1)%nat 1
             (PadPair 0 0).

(** Keyword arguments of an STDP behaviour. *)
Definition stdp_kwargs : Behaviour :=
  mkBehaviour
    [("tau_plus"%string, 15); ("tau_minus"%string, 25);
     ("a_plus"%string, 1 # 5); ("a_minus"%string, 1 # 4)]
    [].

(** Three neurons at rest at [-65] with no input current. *)
Definition quiet : NeuronGroup.t :=
  NeuronGroup.mk 3 [-65; -65; -65] [0; 0; 0] [false; false; false]
    [0; 0; 0] [0; 0; 0] [0; 0; 0]
    10 (-65) (-65) (-55) 1 5 (-58) 1 2 4 1.

(** A recurrent projection: source and destination are population 0. *)
Definition recurrent_2 : Network :=
  mkNetwork
    (fun _ => pop 2 [true; false] [1; 2] [0; 0] [0; 0])
    (SynapseGroup.mk 0 0 (np.mk [2; 2]%nat [1 # 2; 1 # 2; 1 # 2; 1 # 2])
       0 1 [] (1, 1)%nat 1 (PadFlag false) 20 10 (1 # 10) (1 # 20) 1).

(** Two silent populations of two neurons with traces left by earlier
    spikes. *)
Definition silent_2_2 : Network :=
  network (pop 2 [false; false] [1; 2] [0; 0] [0; 0])
          (pop 2 [false; false] [3; 0] [0; 0] [0; 0])
          (projection (np.mk [2; 2]%nat [1 # 2; 1 # 2; 1 # 2; 1 # 2])
                      [] (1, 1)%nat 1 (PadFlag false)).

(** The projection of [dense_2_2] with the bounds exchanged:
    [w_min = 1], [w_max = 0]. *)
Definition inverted_2_2 : Network :=
  network (pop 2 [true; false] [0; 0] [0; 0] [0; 0])
          (pop 2 [false; true] [0; 0] [0; 0] [0; 0])
          (SynapseGroup.mk 0 1 (np.mk [2; 2]%nat [1 # 2; 1 # 2; 1 # 2; 1 # 2])
             1 0 [] (1, 1)%nat 1 (PadFlag false) 20 20 (1 # 10) (1 # 20) 1).

(** A convolutional projection onto a destination of four neurons, with a
    kernel of the single weight [k]. *)
Definition conv_net (k : Q) (cur : list Q) : Network :=
  network image_2_2 (pop 4 [] [] cur []) (pointwise k).

(** A convolution behaviour with weights drawn between 0 and 1, and its
    other keyword arguments: a kernel of 3 x 3, two filters, no padding. *)
Definition conv_self : Conv2D.self_t :=
  Conv2D.mkSelf (mkBehaviour [("w_min"%string, 0); ("w_max"%string, 1)] [])
                false.

Definition conv_kwargs : list (string * attr) :=
  [("kernel_size"%string, APair 3 3); ("n_filters"%string, AInt 2);
   ("pad"%string, ABool false)].

End Examples.

(** ** Stated properties of a projection *)

Module Properties.

Local Open Scope Q_scope.


(** The dense weight update as the specification words it: the change of
    the weight from source neuron [j] to destination neuron [i] is
    [a_plus * src.trace[j] * dst.spikes[i]
     - a_minus * dst.trace[i] * src.spikes[j]], an outer product over
    destination and source indices, and the weights are
    [clip(W + dw * dt, w_min, w_max)], row [i] holding the weights of
    destination neuron [i]. *)
Definition outer_product_update (src dst : NeuronGroup.t)
  (y : SynapseGroup.t) : list Q :=
  flat_map (fun i =>
    map (fun j =>
      let w :=
        nth (i * length (NeuronGroup.trace src) + j)
            (np.data (SynapseGroup.W y)) 0 in
      let dw :=
        SynapseGroup.a_plus y * nth j (NeuronGroup.trace src) 0
          * b2q (nth i (NeuronGroup.spikes dst) false)
        - SynapseGroup.a_minus y * nth i (NeuronGroup.trace dst) 0
            * b2q (nth j (NeuronGroup.spikes src) false) in
      np.clip1 (SynapseGroup.w_min y) (SynapseGroup.w_max y)
               (w + dw * SynapseGroup.dt y))
      (seq 0 (length (NeuronGroup.trace src))))
    (seq 0 (length (NeuronGroup.trace dst))).

(** The trace of the population [g] after the update
    [trace += (-trace / tau + spikes) * dt] of the projection [y]. *)
Definition trace_step (y : SynapseGroup.t) (tau : Q) (g : NeuronGroup.t)
  : list Q :=
  zipWith Qplus (NeuronGroup.trace g)
    (map (fun d => d * SynapseGroup.dt y)
       (zipWith Qplus
          (map (fun x => - x / tau) (NeuronGroup.trace g))
          (map b2q (NeuronGroup.spikes g)))).

(** The vector that the dense branch adds, times [dt], to every row of the
    weights: the elementwise products of the traces and spikes of the two
    populations [src] and [dst], taken after their traces were updated. *)
Definition dense_dw (y : SynapseGroup.t) (src dst : NeuronGroup.t) : list Q :=
  zipWith Qplus
    (zipWith Qmult
       (map (Qmult (SynapseGroup.a_plus y)) (NeuronGroup.trace src))
       (map b2q (NeuronGroup.spikes dst)))
    (zipWith Qmult
       (map (Qmult (- SynapseGroup.a_minus y)) (NeuronGroup.trace dst))
       (map b2q (NeuronGroup.spikes src))).

(** The padding that [Conv2D.set_variables] derives from the configured
    [pad] attribute and the kernel size. *)
Definition derived_pad (y : SynapseGroup.t) : pad_attr :=
  if pad_truth (SynapseGroup.pad y)
  then PadPair (fst (SynapseGroup.kernel_size y) / 2)
               (snd (SynapseGroup.kernel_size y) / 2)
  else PadPair 0 0.

(** The projection once [Conv2D.set_variables] has copied the keyword
    arguments of the behaviour onto it, before the padding is derived. *)
Definition conv_config (self : Conv2D.self_t) (kwargs : list (string * attr))
  (y : SynapseGroup.t) : SynapseGroup.t :=
  SynapseGroup.set_init_attrs_as_variables
    (float_kwargs (Conv2D.base self) ++ kwargs) y.

(** The value of the keyword argument [name], the last one of that name,
    or [default] where there is none. *)
Fixpoint configured (name : string) (kwargs : list (string * Q)) (default : Q)
  : Q :=
  match kwargs with
  | [] => default
  | kv :: kwargs' =>
      configured name kwargs'
        (if String.eqb (fst kv) name then snd kv else default)
  end.

End Properties.

(** * Properties *)

Unset Implicit Arguments.

(** ** Vectors *)

Lemma zipWith_length (A B C : Type) (f : A -> B -> C) l1 l2 :
  length (zipWith f l1 l2) = Nat.min (length l1) (length l2).
Proof.
  revert l2; induction l1 as [|a l1 IH]; intros [|b l2]; simpl; auto.
Qed.

Lemma zipWith_nth_error (A B C : Type) (f : A -> B -> C) l1 l2 i :
  nth_error (zipWith f l1 l2) i =
  match nth_error l1 i, nth_error l2 i with
  | Some a, Some b => Some (f a b)
  | _, _ => None
  end.
Proof.
  revert l2 i; induction l1 as [|a l1 IH]; intros [|b l2] [|i]; simpl; auto;
    try (destruct (nth_error l1 i); reflexivity);
    destruct i; reflexivity.
Qed.

Lemma zipWith_map_l (A A' B C : Type) (f : A' -> B -> C) (g : A -> A') l1 l2 :
  zipWith f (map g l1) l2 = zipWith (fun a b => f (g a) b) l1 l2.
Proof.
  revert l2; induction l1 as [|a l1 IH]; intros [|b l2]; simpl; auto.
  now rewrite IH.
Qed.

Lemma zipWith_diag (A C : Type) (f : A -> A -> C) l :
  zipWith f l l = map (fun a => f a a) l.
Proof.
  induction l as [|a l IH]; simpl; auto. now rewrite IH.
Qed.

Lemma nth_error_map_some (A B : Type) (f : A -> B) l i :
  nth_error (map f l) i = option_map f (nth_error l i).
Proof.
  revert i; induction l as [|a l IH]; intros [|i]; simpl; auto.
Qed.

(** ** The detect-and-reset step *)

Section Reset.

Import NeuronGroup.

(** Detection followed by reset, on any voltage vector: a detected spike
    leaves the reset value. *)
Lemma detect_reset_nth (thr vr : Q) (l : list Q) i :
  nth_error (map (fun x => Qge_bool x thr) l) i = Some true ->
  nth_error
    (zipWith (fun (sp : bool) x => if sp then vr else x)
             (map (fun x => Qge_bool x thr) l) l) i = Some vr.
Proof.
  intros H. rewrite zipWith_nth_error, H.
  rewrite nth_error_map_some in H.
  destruct (nth_error l i); [reflexivity | discriminate].
Qed.

Lemma fire_spikes n :
  spikes (LIFs.LIF._fire n) = map (fun x => Qge_bool x (threshold n)) (v n).
Proof. reflexivity. Qed.

Lemma fire_reset n i :
  nth_error (spikes (LIFs.LIF._fire n)) i = Some true ->
  nth_error (v (LIFs.LIF._fire n)) i = Some (v_reset n).
Proof. apply detect_reset_nth. Qed.

Lemma single_step_reset n i :
  nth_error (spikes (neurons_LIF.new_iteration n)) i = Some true ->
  nth_error (v (neurons_LIF.new_iteration n)) i = Some (v_reset n).
Proof. apply detect_reset_nth. Qed.

End Reset.

(** ** Arrays *)

Section Arrays.

Lemma map_nth_seq (d : list Q) :
  map (fun i => nth i d 0%Q) (seq 0 (length d)) = d.
Proof.
  induction d as [|x d IH]; simpl; [reflexivity|].
  f_equal. rewrite <- seq_shift, map_map. exact IH.
Qed.

Lemma nth_skipn_add (a b : nat) (d : list Q) :
  nth (a + b) d 0%Q = nth b (skipn a d) 0%Q.
Proof.
  revert d; induction a as [|a IH]; intros d; simpl; [reflexivity|].
  destruct d as [|x d]; [destruct b; reflexivity | apply IH].
Qed.

Lemma firstn_plus (a b : nat) (d : list Q) :
  firstn (a + b) d = firstn a d ++ firstn b (skipn a d).
Proof.
  revert d; induction a as [|a IH]; intros d; simpl; [reflexivity|].
  destruct d as [|x d]; simpl; [now rewrite firstn_nil | now rewrite IH].
Qed.

Lemma map_flat_map (A B C : Type) (f : B -> C) (g : A -> list B) l :
  map f (flat_map g l) = flat_map (fun a => map f (g a)) l.
Proof.
  induction l as [|a l IH]; simpl; [reflexivity|].
  now rewrite map_app, IH.
Qed.

Lemma flat_map_ext_in (A B : Type) (f g : A -> list B) l :
  (forall a, In a l -> f a = g a) -> flat_map f l = flat_map g l.
Proof.
  induction l as [|a l IH]; intros H; simpl; [reflexivity|].
  rewrite (H a (or_introl eq_refl)), IH; auto.
  intros b Hb; apply H; now right.
Qed.

Lemma flat_map_singleton (A B : Type) (f : A -> B) l :
  flat_map (fun a => [f a]) l = map f l.
Proof. induction l as [|a l IH]; simpl; [reflexivity | now rewrite IH]. Qed.

(** Consecutive blocks of [m] elements make up the front of a list. *)
Lemma blocks (m : nat) (d : list Q) (k : nat) :
  flat_map (fun i => firstn m (skipn (i * m) d)) (seq 0 k)
  = firstn (k * m) d.
Proof.
  induction k as [|k IH]; [reflexivity|].
  rewrite seq_S, flat_map_app, IH. simpl flat_map. rewrite app_nil_r.
  replace (S k * m) with (k * m + m) by lia.
  now rewrite firstn_plus.
Qed.

Lemma offset_cons i idx s st :
  np.offset (i :: idx) (s :: st) = i * s + np.offset idx st.
Proof. reflexivity. Qed.

(** Reading an array through its own strides gives its elements back, in
    order. *)
Lemma gather_contiguous (sh : list nat) :
  forall d : list Q,
    np.prod sh <= length d ->
    map (fun idx => nth (np.offset idx (np.strides sh)) d 0%Q) (np.indices sh)
    = firstn (np.prod sh) d.
Proof.
  induction sh as [|dim r IH]; intros d Hd.
  - simpl in *. destruct d as [|x d]; [simpl in Hd; lia | reflexivity].
  - cbn [np.indices np.strides np.prod fold_right] in *.
    fold (np.prod r) in *.
    rewrite map_flat_map.
    rewrite flat_map_ext_in
      with (g := fun i => firstn (np.prod r) (skipn (i * np.prod r) d)).
    + apply blocks.
    + intros i Hi. apply in_seq in Hi.
      rewrite map_map.
      erewrite map_ext.
      2:{ intros idx. rewrite offset_cons, nth_skipn_add. reflexivity. }
      apply IH. rewrite length_skipn.
      assert (S i * np.prod r <= dim * np.prod r)
        by (apply Nat.mul_le_mono_r; lia).
      lia.
Qed.

(** Multi-indices stay below the lengths of the axes. *)
Lemma indices_bounded (sh : list nat) :
  forall idx, In idx (np.indices sh) -> Forall2 lt idx sh.
Proof.
  induction sh as [|dim r IH]; intros idx H; simpl in H.
  - destruct H as [<-|[]]. constructor.
  - apply in_flat_map in H. destruct H as (i & Hi & H).
    apply in_map_iff in H. destruct H as (idx' & <- & H).
    apply in_seq in Hi. constructor; [lia | now apply IH].
Qed.

(** On a multi-index of the array itself the broadcasting strides read
    the same element as the strides. *)
Lemma offset_bstrides idx sh :
  Forall2 lt idx sh ->
  np.offset idx (np.bstrides sh sh) = np.offset idx (np.strides sh).
Proof.
  unfold np.bstrides. rewrite Nat.sub_diag. simpl app.
  induction 1 as [|i dim idx r Hi H IH]; [reflexivity|].
  cbn [np.strides zipWith]. rewrite !offset_cons, IH.
  destruct (Nat.eqb_spec dim 1) as [->|]; [|reflexivity].
  replace i with 0 by lia. reflexivity.
Qed.

Lemma as_strided_same (a : np.ndarray) :
  length (np.data a) = np.prod (np.shape a) ->
  np.as_strided a (np.shape a) (np.bstrides (np.shape a) (np.shape a)) = a.
Proof.
  intros H. destruct a as [sh d]. cbn [np.data np.shape] in *.
  unfold np.as_strided. cbn [np.data np.shape].
  f_equal.
  rewrite map_ext_in
    with (g := fun idx => nth (np.offset idx (np.strides sh)) d 0%Q).
  - rewrite gather_contiguous by (rewrite H; apply Nat.le_refl).
    rewrite <- H. apply firstn_all.
  - intros idx Hi. now rewrite offset_bstrides by now apply indices_bounded.
Qed.

Lemma broadcast_rev_refl (sh : list nat) : np.broadcast_rev sh sh = Some sh.
Proof.
  induction sh as [|x sh IH]; [reflexivity|].
  simpl. unfold np.bdim. now rewrite Nat.eqb_refl, IH.
Qed.

Lemma broadcast_shapes_refl (sh : list nat) :
  np.broadcast_shapes sh sh = Some sh.
Proof.
  unfold np.broadcast_shapes.
  now rewrite broadcast_rev_refl; simpl; rewrite rev_involutive.
Qed.

Lemma list_nat_eqb_refl (sh : list nat) : np.list_nat_eqb sh sh = true.
Proof.
  unfold np.list_nat_eqb. destruct (list_eq_dec Nat.eq_dec sh sh); congruence.
Qed.

Lemma broadcast_to_same (a : np.ndarray) :
  length (np.data a) = np.prod (np.shape a) ->
  np.broadcast_to a (np.shape a) = Ok a.
Proof.
  intros H. unfold np.broadcast_to.
  now rewrite broadcast_shapes_refl, list_nat_eqb_refl, as_strided_same.
Qed.

(** Arrays of one shape combine element by element. *)
Lemma binop_same_shape f (a b : np.ndarray) :
  np.shape a = np.shape b ->
  length (np.data a) = np.prod (np.shape a) ->
  length (np.data b) = np.prod (np.shape b) ->
  np.binop f a b = Ok (np.mk (np.shape a) (zipWith f (np.data a) (np.data b))).
Proof.
  intros Hs Ha Hb.
  destruct a as [sa da], b as [sb db]. cbn [np.shape np.data] in *. subst sb.
  pose proof (as_strided_same (np.mk sa da) Ha) as Ea.
  pose proof (as_strided_same (np.mk sa db) Hb) as Eb.
  cbn [np.shape np.data] in Ea, Eb.
  unfold np.binop. cbn [np.shape np.data].
  rewrite broadcast_shapes_refl. cbv zeta.
  now rewrite Ea, Eb.
Qed.

Lemma iadd_same_shape (a b : np.ndarray) :
  np.shape a = np.shape b ->
  length (np.data b) = np.prod (np.shape b) ->
  np.iadd a b = Ok (np.mk (np.shape a) (zipWith Qplus (np.data a) (np.data b))).
Proof.
  intros Hs Hb. unfold np.iadd.
  now rewrite Hs, broadcast_to_same.
Qed.

Lemma vec_length (l : list Q) :
  length (np.data (np.vec l)) = np.prod (np.shape (np.vec l)).
Proof. cbn. lia. Qed.

End Arrays.

(** ** Neuron dynamics *)

Section NeuronDynamics.

Import NeuronGroup.
Import Examples.
Local Open Scope Q_scope.

(** C1, as the claim is written, fails for the variants of LIFs.py: a
    neuron of the base LIF that starts a tick at [-49.8] is detected and
    reset, then integrated in the same tick, and ends the tick with
    [spikes] true and a voltage equal to [-57], not to [v_reset = -65]. *)
Lemma reset_invariant_fails_after_integration :
  let n' := LIFs.LIF.new_iteration above_threshold in
  exists x,
    nth_error (spikes n') 0 = Some true /\
    nth_error (v n') 0 = Some x /\
    x == -57 /\
    ~ x == v_reset n'.
Proof.
  simpl. eexists. repeat split; try reflexivity.
  intros H. vm_compute in H. discriminate.
Qed.

(** C1 (amended): for the single-step LIF of neurons/LIF.py, which
    integrates, then detects, then resets, a neuron whose [spikes] entry is
    true at the end of a tick has [v] equal to [v_reset] at the end of
    that tick; for the variants of LIFs.py the same holds at the end of
    their detect-and-reset step [_fire], before the integration of the
    tick. *)
Theorem reset_invariant (n : t) (i : nat) :
  (nth_error (spikes (neurons_LIF.new_iteration n)) i = Some true ->
   nth_error (v (neurons_LIF.new_iteration n)) i
   = Some (v_reset (neurons_LIF.new_iteration n))) /\
  (nth_error (spikes (LIFs.LIF._fire n)) i = Some true ->
   nth_error (v (LIFs.LIF._fire n)) i = Some (v_reset (LIFs.LIF._fire n))).
Proof.
  split; intros H.
  - exact (single_step_reset n i H).
  - exact (fire_reset n i H).
Qed.

Lemma reset_invariant_witness :
  nth_error (v (neurons_LIF.new_iteration above_threshold)) 0 = Some (-65) /\
  nth_error (v (LIFs.LIF._fire above_threshold)) 0 = Some (-65).
Proof.
  destruct (reset_invariant above_threshold 0) as [H1 H2].
  split; [apply H1 | apply H2]; reflexivity.
Defined.

(** The three variants of LIFs.py integrate after [_fire]. *)
Lemma LIF_new_iteration_spikes n :
  spikes (LIFs.LIF.new_iteration n) = spikes (LIFs.LIF._fire n).
Proof. reflexivity. Qed.

Lemma ELIF_new_iteration_spikes exp n :
  spikes (LIFs.ELIF.new_iteration exp n) = spikes (LIFs.LIF._fire n).
Proof. reflexivity. Qed.

Lemma AELIF_new_iteration_spikes exp n :
  spikes (LIFs.AELIF.new_iteration exp n) = spikes (LIFs.LIF._fire n).
Proof. reflexivity. Qed.


(** C7: one tick of AELIF, neuron by neuron.  [R * A] is subtracted from
    the derivative of the voltage before it is integrated, and [A] is then
    assigned from the integrated voltage, the spikes detected in this tick
    and the adaptation the tick started with. *)
Theorem AELIF_tick (exp : Q -> Q) (n : t) (i : nat) (x c a : Q) :
  nth_error (v n) i = Some x ->
  nth_error (I n) i = Some c ->
  nth_error (A n) i = Some a ->
  let sp := Qge_bool x (threshold n) in
  let x0 := if sp then v_reset n else x in
  let dv :=
    v_rest n - x0 + R n * c
    + sharpness n * exp ((x0 - theta_rh n) / sharpness n)
    - R n * a in
  let x1 := x0 + dv / tau n in
  let n' := LIFs.AELIF.new_iteration exp n in
  nth_error (spikes n') i = Some sp /\
  nth_error (v n') i = Some x1 /\
  nth_error (A n') i
  = Some ((alpha n * (x1 - v_rest n) + beta n * tau_a n * b2q sp - a) / tau_a n).
Proof.
  intros Hv Hi Ha sp x0 dv x1 n'.
  assert (Hs : nth_error (spikes n') i = Some sp).
  { unfold n'. rewrite AELIF_new_iteration_spikes, fire_spikes.
    now rewrite nth_error_map_some, Hv. }
  assert (H0 : nth_error (v (LIFs.LIF._fire n)) i = Some x0).
  { unfold LIFs.LIF._fire. cbn [v spikes set_v set_spikes v_reset threshold].
    now rewrite zipWith_nth_error, nth_error_map_some, Hv. }
  assert (H1 : nth_error (v n') i = Some x1).
  { unfold n', LIFs.AELIF.new_iteration, LIFs.ELIF._dv_dt, LIFs.LIF._dv_dt.
    cbn [v set_v set_A I A R tau theta_rh sharpness v_rest].
    rewrite zipWith_nth_error, H0, nth_error_map_some.
    repeat rewrite zipWith_nth_error.
    repeat rewrite nth_error_map_some.
    rewrite H0. cbn [option_map].
    change (I (LIFs.LIF._fire n)) with (I n).
    change (A (LIFs.LIF._fire n)) with (A n).
    now rewrite Hi, Ha. }
  repeat split; auto.
  unfold n', LIFs.AELIF.new_iteration, LIFs.AELIF._dA_dt in *.
  cbn [v set_v set_A I A R tau tau_a alpha beta spikes v_rest] in *.
  rewrite nth_error_map_some.
  repeat rewrite zipWith_nth_error.
  repeat rewrite nth_error_map_some.
  rewrite H1. cbn [option_map].
  change (spikes (LIFs.LIF._fire n))
    with (map (fun x => Qge_bool x (threshold n)) (v n)).
  rewrite nth_error_map_some, Hv. cbn [option_map].
  change (A (LIFs.LIF._fire n)) with (A n).
  now rewrite Ha.
Qed.

Lemma AELIF_tick_witness :
  let n' := LIFs.AELIF.new_iteration (fun _ => 1) (neuron (-50) 2 false) in
  nth_error (spikes n') 0 = Some true /\
  nth_error (v n') 0
  = Some (-65 + (-65 - -65 + 1 * 80 + 5 * 1 - 1 * 2) / 10) /\
  nth_error (A n') 0
  = Some ((1 * (-65 + (-65 - -65 + 1 * 80 + 5 * 1 - 1 * 2) / 10 - -65)
           + 2 * 4 * 1 - 2) / 4).
Proof.
  apply (AELIF_tick (fun _ => 1) (neuron (-50) 2 false) 0 (-50) 80 2);
    reflexivity.
Defined.

End NeuronDynamics.

(** ** The periodic firing scenario *)

Section Scenario.

Import NeuronGroup.
Import Examples.
Local Open Scope Q_scope.





(** The same neuron under the base LIF of LIFs.py, which detects and
    resets before it integrates: the voltage [-49.8] is left standing at
    the end of tick 2, the spike is seen in tick 3, and that tick ends at
    [-57]. *)
Lemma LIFs_scenario :
  let tick' (k : nat) := iterate LIFs.LIF.new_iteration k at_rest in
  spikes (tick' 1%nat) = [false] /\
  spikes (tick' 2%nat) = [false] /\
  spikes (tick' 3%nat) = [true] /\
  Forall2 Qeq (v (tick' 2%nat)) [-249 # 5] /\
  Forall2 Qeq (v (tick' 3%nat)) [-57].
Proof.
  intros tick'.
  repeat match goal with
         | |- _ /\ _ => split
         | |- Forall2 _ _ _ => vm_compute; repeat constructor
         | |- _ = _ => vm_compute; reflexivity
         end.
Qed.

End Scenario.

(** ** Initialisation *)

Section Initialisation.

Import NeuronGroup.
Import Examples.
Local Open Scope Q_scope.






(** Copying keyword arguments onto a projection leaves the populations it
    names, its weights and its tags as they are. *)
Lemma syn_setattr_frame y name a :
  SynapseGroup.src (SynapseGroup.setattr y name a) = SynapseGroup.src y /\
  SynapseGroup.dst (SynapseGroup.setattr y name a) = SynapseGroup.dst y /\
  SynapseGroup.W (SynapseGroup.setattr y name a) = SynapseGroup.W y /\
  SynapseGroup.tags (SynapseGroup.setattr y name a) = SynapseGroup.tags y.
Proof.
  destruct a; unfold SynapseGroup.setattr;
    repeat match goal with
           | |- context [String.eqb ?a ?b] => destruct (String.eqb a b)
           end; repeat split; reflexivity.
Qed.

Lemma syn_set_init_attrs_frame kwargs y :
  let y' := SynapseGroup.set_init_attrs_as_variables kwargs y in
  SynapseGroup.src y' = SynapseGroup.src y /\
  SynapseGroup.dst y' = SynapseGroup.dst y /\
  SynapseGroup.W y' = SynapseGroup.W y /\
  SynapseGroup.tags y' = SynapseGroup.tags y.
Proof.
  unfold SynapseGroup.set_init_attrs_as_variables.
  revert y. induction kwargs as [|kv kwargs IH]; intros y; [cbn; auto|].
  cbn [fold_left].
  destruct (IH (SynapseGroup.setattr y (fst kv) (snd kv))) as (A1 & A2 & A3 & A4).
  destruct (syn_setattr_frame y (fst kv) (snd kv)) as (B1 & B2 & B3 & B4).
  cbv zeta in *. rewrite A1, A2, A3, A4. auto.
Qed.

(** [STDP.set_variables] gives both populations the vector that the host
    returns for [get_neuron_vec()] without argument. *)
Lemma STDP_set_variables_traces dm self net :
  let net' := snd (STDP.set_variables dm self net) in
  trace (groups net' (SynapseGroup.dst (synapses net')))
  = repeat (fill dm) (size (groups net (SynapseGroup.dst (synapses net)))) /\
  trace (groups net' (SynapseGroup.src (synapses net')))
  = repeat (fill dm) (size (groups net (SynapseGroup.src (synapses net)))).
Proof.
  destruct (syn_set_init_attrs_frame
              (float_kwargs (add_tag "STDP" self)) (synapses net))
    as (Es & Ed & _ & _).
  cbv zeta in Es, Ed.
  unfold STDP.set_variables, bind, get_synapses, put_synapses, get_group,
    put_group, ret.
  cbn [fst snd groups synapses].
  rewrite Es, Ed.
  rewrite !Nat.eqb_refl.
  rewrite (Nat.eqb_sym (SynapseGroup.src (synapses net))
                       (SynapseGroup.dst (synapses net))).
  destruct (Nat.eqb_spec (SynapseGroup.dst (synapses net))
                         (SynapseGroup.src (synapses net))) as [E|E].
  - rewrite E. split; reflexivity.
  - split; reflexivity.
Qed.

(** C6 fails for the single-step LIF of neurons/LIF.py: it multiplies the
    vector of [get_neuron_vec()] without argument by [v_rest], the vector
    that [STDP.set_variables] takes as the initial trace.  Whenever the
    host makes that trace all-zero, the population configured as in the
    test suite starts at voltage 0, not at [v_rest = -65], with [spikes]
    all true. *)
Theorem single_step_init_not_at_rest (dm : vec_mode) :
  (let net' :=
     snd (STDP.set_variables dm (mkBehaviour [] [])
            (network (blank 1) (blank 1)
               (projection (np.mk [1%nat; 1%nat] [0]) [] (1%nat, 1%nat) 1 (PadFlag false)))) in
   Forall (fun x => x == 0) (trace (groups net' 0%nat))) ->
  let n' := snd (neurons_LIF.set_variables dm lif_kwargs (blank 1)) in
  exists x,
    v n' = [x] /\ x == 0 /\ ~ x == v_rest n' /\ spikes n' = [true].
Proof.
  destruct dm; cbn.
  - intros _. eexists. repeat split; try reflexivity.
    intros H; vm_compute in H; discriminate.
  - intros H. inversion H as [|? ? H1 _]; subst.
    vm_compute in H1. discriminate.
Qed.

Lemma single_step_init_not_at_rest_witness :
  let n' := snd (neurons_LIF.set_variables zeros lif_kwargs (blank 1)) in
  exists x,
    v n' = [x] /\ x == 0 /\ ~ x == v_rest n' /\ spikes n' = [true].
Proof.
  refine (single_step_init_not_at_rest zeros _).
  vm_compute. repeat constructor.
Defined.

End Initialisation.

(** ** Plasticity *)

(** Running a behaviour: destruct every fallible array operation. *)
Ltac run_M :=
  unfold bind, lift, ret, get_synapses, get_group, put_group, put_synapses;
  cbn [fst snd groups synapses];
  repeat match goal with
         | |- context [match ?r with Ok _ => _ | Err _ => _ end] =>
             destruct r; cbn [fst snd groups synapses]
         end.


Section Plasticity.

Import Examples Properties.
Local Open Scope Q_scope.



(** Stepping through a behaviour. *)
Lemma bind_run (A B : Type) (m : M A) (k : A -> M B) net :
  bind m k net
  = match m net with
    | (Ok a, st) => k a st
    | (Err e, st) => (Err e, st)
    end.
Proof. reflexivity. Qed.

Lemma bind_get_synapses (B : Type) (k : SynapseGroup.t -> M B) net :
  bind get_synapses k net = k (synapses net) net.
Proof. reflexivity. Qed.

Lemma bind_get_group (B : Type) id (k : NeuronGroup.t -> M B) net :
  bind (get_group id) k net = k (groups net id) net.
Proof. reflexivity. Qed.

Lemma bind_lift (A B : Type) (r : result A) (k : A -> M B) net :
  bind (lift r) k net
  = match r with
    | Ok a => k a net
    | Err e => (Err e, net)
    end.
Proof. destruct r; reflexivity. Qed.

Lemma iadd_trace_synapses id d dt net :
  synapses (snd (STDP.iadd_trace id d dt net)) = synapses net.
Proof.
  unfold STDP.iadd_trace.
  rewrite bind_get_group, bind_lift.
  destruct (np.iadd _ _); reflexivity.
Qed.

Lemma update_traces_synapses net :
  synapses (snd (STDP.update_traces net)) = synapses net.
Proof.
  unfold STDP.update_traces.
  rewrite bind_get_synapses, bind_get_group, bind_lift.
  destruct (np.add _ _); [|reflexivity].
  rewrite bind_get_group, bind_lift.
  destruct (np.add _ _); [|reflexivity].
  rewrite bind_run.
  pose proof (iadd_trace_synapses
                (SynapseGroup.src (synapses net)) a
                (SynapseGroup.dt (synapses net)) net) as H1.
  destruct (STDP.iadd_trace _ _ _ net) as [[[]|e] st]; cbn [snd] in H1.
  - rewrite iadd_trace_synapses. exact H1.
  - exact H1.
Qed.

Lemma dense_update_state net : snd (STDP.dense_update net) = net.
Proof. unfold STDP.dense_update. run_M; reflexivity. Qed.

Lemma conv2d_update_state net : snd (STDP.conv2d_update net) = net.
Proof. unfold STDP.conv2d_update. run_M; reflexivity. Qed.

(** The assignment of the weights: either the clipped sum is stored, or
    an exception leaves the network as it was. *)
Lemma apply_dw_cases dw net :
  (fst (STDP.apply_dw dw net) = Ok tt /\
   exists w,
     synapses (snd (STDP.apply_dw dw net))
     = SynapseGroup.set_W
         (np.clip w (SynapseGroup.w_min (synapses net))
                    (SynapseGroup.w_max (synapses net)))
         (synapses net)) \/
  ((exists e, fst (STDP.apply_dw dw net) = Err e) /\
   snd (STDP.apply_dw dw net) = net).
Proof.
  unfold STDP.apply_dw. run_M.
  - left. split; [reflexivity | eexists; reflexivity].
  - right. split; [eexists; reflexivity | reflexivity].
  - right. split; [eexists; reflexivity | reflexivity].
Qed.

Lemma new_iteration_cases net :
  (fst (STDP.new_iteration net) = Ok tt /\
   exists w,
     synapses (snd (STDP.new_iteration net))
     = SynapseGroup.set_W
         (np.clip w (SynapseGroup.w_min (synapses net))
                    (SynapseGroup.w_max (synapses net)))
         (synapses net)) \/
  ((exists e, fst (STDP.new_iteration net) = Err e) /\
   synapses (snd (STDP.new_iteration net)) = synapses net).
Proof.
  unfold STDP.new_iteration. rewrite bind_run.
  pose proof (update_traces_synapses net) as Hs.
  destruct (STDP.update_traces net) as [[[]|e] st]; cbn [snd] in Hs.
  2:{ right. split; [eexists; reflexivity | exact Hs]. }
  rewrite bind_get_synapses, bind_run.
  set (m := if existsb _ _ then STDP.conv2d_update else STDP.dense_update).
  assert (Hm : snd (m st) = st).
  { unfold m. destruct (existsb _ _);
      [apply conv2d_update_state | apply dense_update_state]. }
  destruct (m st) as [[dw|e] st']; cbn [snd] in Hm; subst st'.
  2:{ right. split; [eexists; reflexivity | exact Hs]. }
  rewrite <- Hs.
  destruct (apply_dw_cases dw st) as [(H1 & w & H2) | ((e & H1) & H2)].
  - left. split; [exact H1 | exists w; exact H2].
  - right. split; [exists e; exact H1 | now rewrite H2].
Qed.




(** *** The convolutional branch *)

Lemma assign_center_shape img p0 p1 src r :
  np.assign_center img p0 p1 src = Ok r -> np.shape r = np.shape img.
Proof.
  unfold np.assign_center.
  destruct (np.shape img) as [|n [|h [|w [|c [|]]]]]; try discriminate.
  destruct (np.broadcast_to _ _); [|discriminate].
  intros H; inversion H; reflexivity.
Qed.

Lemma sliding_window_view_arity x ws :
  length ws <> np.ndim x -> np.sliding_window_view x ws = Err ValueError.
Proof.
  intros H. unfold np.sliding_window_view.
  destruct (Nat.eqb_spec (length ws) (np.ndim x)); [contradiction | reflexivity].
Qed.

(** [conv2d_update] hands a four-dimensional array and the two kernel
    lengths to [sliding_window_view], which wants one length per axis:
    whatever the projection, it raises before any [dw] is produced. *)
Lemma conv2d_update_raises net :
  exists e, fst (STDP.conv2d_update net) = Err e.
Proof.
  unfold STDP.conv2d_update.
  rewrite bind_get_synapses, !bind_get_group, bind_lift.
  destruct (pad_pair _) as [p|e]; [|eexists; reflexivity].
  rewrite bind_lift.
  destruct (floordiv _ _) as [c|e]; [|eexists; reflexivity].
  rewrite bind_lift.
  destruct (np.assign_center _ _ _ _) as [pre_spikes|e] eqn:E1;
    [|eexists; reflexivity].
  rewrite bind_lift.
  match goal with
  | |- context [match np.assign_center ?a ?b ?c ?d with _ => _ end] =>
      destruct (np.assign_center a b c d) as [pre_trace|e];
      [|eexists; reflexivity]
  end.
  rewrite bind_lift.
  rewrite sliding_window_view_arity.
  - eexists; reflexivity.
  - unfold np.ndim. rewrite (assign_center_shape _ _ _ _ _ E1).
    cbn. discriminate.
Qed.

(** C5 fails on the code: no reduction over the spatial axis is written
    anywhere, and in a projection tagged as convolutional the tick raises
    inside [conv2d_update], after the traces were updated and before the
    weights are assigned, which therefore keep their shape and values
    only because they are never updated. *)
Theorem conv_mode_never_updates_weights (net : Network) :
  existsb (String.eqb "conv2d") (SynapseGroup.tags (synapses net)) = true ->
  (exists e, fst (STDP.new_iteration net) = Err e) /\
  synapses (snd (STDP.new_iteration net)) = synapses net.
Proof.
  intros Htag.
  unfold STDP.new_iteration. rewrite bind_run.
  pose proof (update_traces_synapses net) as Hs.
  destruct (STDP.update_traces net) as [[[]|e] st]; cbn [snd] in Hs.
  2:{ split; [eexists; reflexivity | exact Hs]. }
  rewrite bind_get_synapses, bind_run, Hs, Htag.
  destruct (conv2d_update_raises st) as [e He].
  pose proof (conv2d_update_state st) as Hst.
  destruct (STDP.conv2d_update st) as [[dw|e'] st'];
    cbn [fst snd] in He, Hst; [discriminate|].
  subst st'. split; [eexists; reflexivity | exact Hs].
Qed.

Lemma conv_mode_never_updates_weights_witness :
  (exists e, fst (STDP.new_iteration conv_1_1) = Err e) /\
  synapses (snd (STDP.new_iteration conv_1_1)) = synapses conv_1_1.
Proof.
  apply (conv_mode_never_updates_weights conv_1_1).
  vm_compute. reflexivity.
Defined.

(** The smallest convolutional projection, evaluated. *)
Lemma conv_1_1_raises :
  fst (STDP.new_iteration conv_1_1) = Err ValueError /\
  fst (STDP.conv2d_update conv_1_1) = Err ValueError.
Proof. split; vm_compute; reflexivity. Qed.

(** *** The dense branch *)

(** C4 fails on the code in its second half.  The traces are updated as
    claimed, but [dw] is the elementwise product of the two vectors, not
    their outer product.  With two populations of two neurons, source
    neuron 0 and destination neuron 1 spiking, the weight from source 0 to
    destination 1 is left at 1/2 where the outer product raises it to
    11/20; with populations of two and three neurons the products cannot
    be formed and the tick raises. *)
Theorem dense_update_is_not_outer_product :
  let r := STDP.new_iteration dense_2_2 in
  let src' := groups (snd r) 0%nat in
  let dst' := groups (snd r) 1%nat in
  fst r = Ok tt /\
  map Qred (NeuronGroup.trace src') = [1; 0] /\
  map Qred (NeuronGroup.trace dst') = [0; 1] /\
  map Qred (np.data (SynapseGroup.W (synapses (snd r))))
  = [1 # 2; 1 # 2; 1 # 2; 1 # 2] /\
  map Qred (outer_product_update src' dst' (synapses dense_2_2))
  = [1 # 2; 1 # 2; 11 # 20; 1 # 2] /\
  fst (STDP.new_iteration dense_2_3) = Err ValueError /\
  fst (learning_STDP.new_iteration dense_2_3) = Err ValueError /\
  snd (learning_STDP.new_iteration dense_2_2) = snd r.
Proof.
  repeat split; vm_compute; reflexivity.
Qed.

(** The first half of C4 holds on the code: between two different
    populations whose traces and spikes have the length of the population,
    the tick first moves each trace by [(-trace / tau + spikes) * dt], with
    [tau_plus] on the source and [tau_minus] on the destination. *)
Lemma update_traces_values (net : Network) :
  let y := synapses net in
  let src := groups net (SynapseGroup.src y) in
  let dst := groups net (SynapseGroup.dst y) in
  let step (tau : Q) (g : NeuronGroup.t) :=
    zipWith Qplus (NeuronGroup.trace g)
      (map (fun d => d * SynapseGroup.dt y)
         (zipWith Qplus
            (map (fun x => - x / tau) (NeuronGroup.trace g))
            (map b2q (NeuronGroup.spikes g)))) in
  SynapseGroup.src y <> SynapseGroup.dst y ->
  length (NeuronGroup.trace src) = length (NeuronGroup.spikes src) ->
  length (NeuronGroup.trace dst) = length (NeuronGroup.spikes dst) ->
  fst (STDP.update_traces net) = Ok tt /\
  NeuronGroup.trace (groups (snd (STDP.update_traces net)) (SynapseGroup.src y))
  = step (SynapseGroup.tau_plus y) src /\
  NeuronGroup.trace (groups (snd (STDP.update_traces net)) (SynapseGroup.dst y))
  = step (SynapseGroup.tau_minus y) dst.
Proof.
  intros y src dst step Hne Hs Hd. subst y src dst step.
  assert (Hb : forall (tau : Q) (g : NeuronGroup.t),
             length (NeuronGroup.trace g) = length (NeuronGroup.spikes g) ->
             np.add
               (np.smap (fun x => - x / tau) (np.vec (NeuronGroup.trace g)))
               (np.vec (map b2q (NeuronGroup.spikes g)))
             = Ok (np.mk [length (NeuronGroup.trace g)]
                     (zipWith Qplus
                        (map (fun x => - x / tau) (NeuronGroup.trace g))
                        (map b2q (NeuronGroup.spikes g))))).
  { intros tau g Hg. unfold np.add. rewrite binop_same_shape.
    - reflexivity.
    - cbn. now rewrite length_map, Hg.
    - cbn. rewrite length_map. lia.
    - apply vec_length. }
  assert (Hi : forall (g : NeuronGroup.t) (d : list Q) (c : Q),
             length d = length (NeuronGroup.trace g) ->
             np.iadd (np.vec (NeuronGroup.trace g))
                     (np.smap (fun x => x * c)
                              (np.mk [length (NeuronGroup.trace g)] d))
             = Ok (np.mk [length (NeuronGroup.trace g)]
                     (zipWith Qplus (NeuronGroup.trace g)
                              (map (fun x => x * c) d)))).
  { intros g d c Hg. rewrite iadd_same_shape.
    - reflexivity.
    - reflexivity.
    - cbn. rewrite length_map. lia. }
  assert (Hz : forall (tau : Q) (g : NeuronGroup.t),
             length (NeuronGroup.trace g) = length (NeuronGroup.spikes g) ->
             length (zipWith Qplus
                       (map (fun x => - x / tau) (NeuronGroup.trace g))
                       (map b2q (NeuronGroup.spikes g)))
             = length (NeuronGroup.trace g)).
  { intros tau g Hg. rewrite zipWith_length, !length_map, <- Hg.
    apply Nat.min_id. }
  unfold STDP.update_traces.
  rewrite bind_get_synapses, bind_get_group, bind_lift, Hb by exact Hs.
  rewrite bind_get_group, bind_lift, Hb by exact Hd.
  rewrite bind_run. unfold STDP.iadd_trace.
  rewrite bind_get_group, bind_lift, Hi by now apply Hz.
  cbn [put_group np.data].
  rewrite bind_get_group, bind_lift.
  cbn [groups synapses].
  destruct (Nat.eqb_spec (SynapseGroup.dst (synapses net))
                         (SynapseGroup.src (synapses net))) as [E|_];
    [congruence|].
  rewrite Hi by now apply Hz.
  cbn [put_group fst snd groups np.data].
  rewrite Nat.eqb_refl.
  destruct (Nat.eqb_spec (SynapseGroup.src (synapses net))
                         (SynapseGroup.dst (synapses net))) as [E|_];
    [congruence|].
  rewrite Nat.eqb_refl.
  repeat split; reflexivity.
Qed.

End Plasticity.

(** ** The convolutional projection *)

Section Convolution.

Import Examples.

Lemma set_I_same g : NeuronGroup.set_I (NeuronGroup.I g) g = g.
Proof. destruct g; reflexivity. Qed.

(** A forward pass either raises and leaves the network as it was, or
    returns after one write, to the input current of the destination. *)
Lemma new_iteration_cases_conv self net :
  (exists e, Conv2D.new_iteration self net = (Err e, net)) \/
  (exists cur,
     Conv2D.new_iteration self net
     = (Ok tt,
        mkNetwork
          (fun j =>
             if j =? SynapseGroup.dst (synapses net)
             then NeuronGroup.set_I cur
                    (groups net (SynapseGroup.dst (synapses net)))
             else groups net j)
          (synapses net))).
Proof.
  unfold Conv2D.new_iteration.
  rewrite bind_get_synapses, bind_get_group, bind_lift.
  destruct (Conv2D.forward _ _ _) as [cur|e]; [|left; eexists; reflexivity].
  rewrite bind_get_group, bind_lift.
  destruct (np.iadd _ _) as [i'|e]; [|left; eexists; reflexivity].
  right. eexists. reflexivity.
Qed.

(** C9: a forward pass of the convolutional projection writes nothing but
    the input current of the destination population: the projection
    (kernel [W] and configuration), every other population, and every
    attribute of the destination other than [I], the source activity and
    the spikes among them, are as before. *)
Theorem forward_pass_frame (self : Conv2D.self_t) (net : Network) :
  let net' := snd (Conv2D.new_iteration self net) in
  let d := SynapseGroup.dst (synapses net) in
  synapses net' = synapses net /\
  (forall j, j <> d -> groups net' j = groups net j) /\
  (exists cur, groups net' d = NeuronGroup.set_I cur (groups net d)) /\
  (forall j,
     NeuronGroup.s (groups net' j) = NeuronGroup.s (groups net j) /\
     NeuronGroup.spikes (groups net' j) = NeuronGroup.spikes (groups net j)).
Proof.
  intros net' d. subst net' d.
  destruct (new_iteration_cases_conv self net) as [[e ->] | [cur ->]];
    cbn [snd groups synapses].
  - repeat split; auto.
    exists (NeuronGroup.I (groups net (SynapseGroup.dst (synapses net)))).
    now rewrite set_I_same.
  - repeat split.
    + intros j Hj. now destruct (Nat.eqb_spec j (SynapseGroup.dst (synapses net))).
    + exists cur. now rewrite Nat.eqb_refl.
    + destruct (Nat.eqb_spec j (SynapseGroup.dst (synapses net)));
        [subst j|]; reflexivity.
    + destruct (Nat.eqb_spec j (SynapseGroup.dst (synapses net)));
        [subst j|]; reflexivity.
Qed.

Lemma indices_4 (a h w c : nat) idx :
  In idx (np.indices [a; h; w; c]) ->
  exists i y x k, idx = [i; y; x; k] /\ i < a /\ y < h /\ x < w /\ k < c.
Proof.
  intros H. apply indices_bounded in H.
  inversion H as [|i ? ? ? Hi H1]; subst.
  inversion H1 as [|y0 ? ? ? Hy H2]; subst.
  inversion H2 as [|x0 ? ? ? Hx H3]; subst.
  inversion H3 as [|k0 ? ? ? Hk H4]; subst.
  inversion H4; subst.
  exists i, y0, x0, k0. auto.
Qed.

(** Without padding the block assigned is the whole image. *)
Lemma assign_center_whole (img src : np.ndarray) (a h w c : nat) :
  np.shape img = [a; h; w; c] ->
  np.shape src = [a; h; w; c] ->
  length (np.data src) = np.prod [a; h; w; c] ->
  np.assign_center img 0 0 src = Ok (np.mk [a; h; w; c] (np.data src)).
Proof.
  intros Hi Hs Hl. unfold np.assign_center. rewrite Hi, !Nat.sub_0_r.
  rewrite <- Hs, broadcast_to_same by now rewrite Hs.
  rewrite Hs. f_equal. f_equal.
  rewrite map_ext_in
    with (g := fun idx => nth (np.offset idx (np.strides [a; h; w; c]))
                              (np.data src) 0%Q).
  - rewrite gather_contiguous by (rewrite Hl; apply Nat.le_refl).
    rewrite <- Hl. apply firstn_all.
  - intros idx Hin. apply indices_4 in Hin.
    destruct Hin as (i & y & x & k & -> & _ & Hy & Hx & _).
    rewrite !Nat.sub_0_r.
    apply Nat.ltb_lt in Hy, Hx. now rewrite Hy, Hx.
Qed.

Lemma indices_app_1 (sh : list nat) :
  np.indices (sh ++ [1]) = map (fun idx => idx ++ [0]) (np.indices sh).
Proof.
  induction sh as [|d r IH]; [reflexivity|].
  cbn [app np.indices]. rewrite IH, map_flat_map.
  apply flat_map_ext. intros i. now rewrite !map_map.
Qed.

(** The windows of a kernel of one weight are the elements themselves. *)
Lemma windows_1x1 (n : nat) (d : list Q) :
  length d = n * n ->
  np.as_strided (np.mk [1; n; n; 1] d) [1; n; n; 1; 1; 1]
    (firstn 3 (np.strides [1; n; n; 1]) ++ skipn 1 (np.strides [1; n; n; 1]))
  = np.mk [1; n; n; 1; 1; 1] d.
Proof.
  intros Hl. unfold np.as_strided. f_equal.
  change [1; n; n; 1; 1; 1] with (([1; n; n; 1] ++ [1]) ++ [1]).
  rewrite !indices_app_1, !map_map. cbn [np.data].
  rewrite map_ext_in
    with (g := fun idx => nth (np.offset idx (np.strides [1; n; n; 1])) d 0%Q).
  - rewrite gather_contiguous by (cbn [np.prod fold_right]; lia).
    replace (np.prod [1; n; n; 1]) with (length d)
      by (cbn [np.prod fold_right]; lia).
    apply firstn_all.
  - intros idx Hin. apply indices_4 in Hin.
    destruct Hin as (i & y & x & k & -> & _ & _ & _ & Hk).
    replace k with 0 by lia.
    f_equal; cbn; lia.
Qed.

Lemma tensordot_1x1 (n : nat) (d : list Q) (k : Q) :
  length d = n * n ->
  np.tensordot (np.mk [1; n; n; 1; 1; 1] d) (np.mk [1; 1; 1; 1] [k]) 3
  = Ok (np.mk [1; n; n; 1] (map (fun x => (x * k + 0)%Q) d)).
Proof.
  intros Hl. unfold np.tensordot.
  cbn [np.ndim np.shape np.data length Nat.leb andb Nat.sub firstn skipn app].
  rewrite list_nat_eqb_refl.
  change (np.prod [1; 1; 1]) with 1. change (np.prod [1]) with 1.
  replace (np.prod [1; n; n]) with (length d)
    by (cbn [np.prod fold_right]; lia).
  f_equal. f_equal.
  cbn [seq map].
  rewrite flat_map_singleton.
  rewrite <- (map_nth_seq d) at 2. rewrite map_map.
  apply map_ext. intros m.
  rewrite Nat.mul_1_r, Nat.add_0_r. reflexivity.
Qed.

(** The forward pass through a kernel of one weight. *)
Lemma forward_1x1 (self : Conv2D.self_t) (src : NeuronGroup.t)
  (y : SynapseGroup.t) (n : nat) (k : Q) :
  Conv2D.is1d self = true ->
  NeuronGroup.size src = n * n ->
  length (NeuronGroup.s src) = n * n ->
  SynapseGroup.W y = np.mk [1; 1; 1; 1] [k] ->
  SynapseGroup.pad y = PadPair 0 0 ->
  Conv2D.forward self src y
  = Ok (map (fun x => (x * k + 0)%Q) (NeuronGroup.s src)).
Proof.
  intros H1d Hsize Hlen HW Hpad.
  unfold Conv2D.forward. rewrite H1d, Hsize, HW, Hpad.
  unfold int_sqrt. rewrite Nat.sqrt_square.
  unfold np.reshape. cbn [np.prod fold_right np.vec np.data np.shape].
  rewrite Nat.mul_1_r, Hlen, Nat.eqb_refl.
  cbn [rbind].
  unfold np.expand_dims. cbn [rbind np.ndim np.shape np.data length Nat.leb firstn skipn app].
  unfold Conv2D.__conv2d.
  cbn [np.shape_at np.shape nth_error rbind pad_pair fst snd np.shape_last rev app Nat.mul].
  rewrite !Nat.add_0_r.
  rewrite (assign_center_whole _ _ 1 n n 1)
  by (try reflexivity; cbn [np.data np.prod fold_right]; lia).
  cbn [rbind np.data np.shape].
  replace (Z.of_nat n - Z.of_nat 1 + 2 * Z.of_nat 0 + 1)%Z with (Z.of_nat n) by lia.
  rewrite Nat2Z.id.
  destruct (Z.ltb_spec (Z.of_nat n) 0) as [Hneg|_]; [lia|].
  cbn [orb].
  rewrite windows_1x1 by exact Hlen.
  rewrite tensordot_1x1 by exact Hlen.
  reflexivity.
Qed.

Lemma Forall2_map_Qeq (f g : Q -> Q) (l : list Q) :
  (forall x, f x == g x)%Q -> Forall2 Qeq (map f l) (map g l).
Proof.
  intros H. induction l as [|x l IH]; simpl; constructor; auto.
Qed.

(** C8: with a kernel of size (1, 1) holding the one weight [k], one
    input channel, one filter and no padding, the current that the
    forward pass contributes is the source activity with every element
    multiplied by [k]. *)
Theorem pointwise_kernel_scales (self : Conv2D.self_t) (src : NeuronGroup.t)
  (y : SynapseGroup.t) (n : nat) (k : Q) :
  Conv2D.is1d self = true ->
  NeuronGroup.size src = n * n ->
  length (NeuronGroup.s src) = n * n ->
  SynapseGroup.W y = np.mk [1; 1; 1; 1] [k] ->
  SynapseGroup.pad y = PadPair 0 0 ->
  exists cur,
    Conv2D.forward self src y = Ok cur /\
    Forall2 Qeq cur (map (fun x => (k * x)%Q) (NeuronGroup.s src)).
Proof.
  intros H1d Hsize Hlen HW Hpad.
  eexists. split.
  - apply (forward_1x1 self src y n k); assumption.
  - apply Forall2_map_Qeq. intros x. ring.
Qed.

Lemma pointwise_kernel_scales_witness :
  exists cur,
    Conv2D.forward (Conv2D.mkSelf (mkBehaviour [] []) true) image_2_2
                   (pointwise 3)
    = Ok cur /\
    Forall2 Qeq cur (map (fun x => (3 * x)%Q) (NeuronGroup.s image_2_2)).
Proof.
  apply (pointwise_kernel_scales _ image_2_2 (pointwise 3) 2 3);
    reflexivity.
Defined.

(** The tick adds that current to the input current of the destination. *)
Lemma pointwise_kernel_new_iteration (self : Conv2D.self_t) (net : Network)
  (n : nat) (k : Q) :
  let y := synapses net in
  let src := groups net (SynapseGroup.src y) in
  let dst := groups net (SynapseGroup.dst y) in
  Conv2D.is1d self = true ->
  NeuronGroup.size src = n * n ->
  length (NeuronGroup.s src) = n * n ->
  length (NeuronGroup.I dst) = n * n ->
  SynapseGroup.W y = np.mk [1; 1; 1; 1] [k] ->
  SynapseGroup.pad y = PadPair 0 0 ->
  fst (Conv2D.new_iteration self net) = Ok tt /\
  NeuronGroup.I (groups (snd (Conv2D.new_iteration self net))
                        (SynapseGroup.dst y))
  = zipWith Qplus (NeuronGroup.I dst)
            (map (fun x => (x * k + 0)%Q) (NeuronGroup.s src)).
Proof.
  intros y src dst H1d Hsize Hlen HI HW Hpad. subst y src dst.
  unfold Conv2D.new_iteration.
  rewrite bind_get_synapses, bind_get_group, bind_lift.
  rewrite (forward_1x1 _ _ _ n k) by assumption.
  rewrite bind_get_group, bind_lift.
  rewrite iadd_same_shape.
  - cbn [fst snd put_group groups np.data np.vec]. now rewrite Nat.eqb_refl.
  - cbn [np.shape np.vec]. now rewrite length_map, HI, Hlen.
  - apply vec_length.
Qed.

(** [set_variables] finds the activity one-dimensional whenever it
    returns: the reshape to a square has succeeded. *)
Lemma set_variables_is1d uniform kwargs self net self' net' :
  Conv2D.set_variables uniform kwargs self net = (Ok self', net') ->
  Conv2D.is1d self' = true.
Proof.
  unfold Conv2D.set_variables.
  rewrite bind_get_synapses, bind_run. cbn [put_synapses].
  rewrite bind_get_group, bind_lift.
  unfold np.reshape.
  destruct (Nat.eqb _ _); [|discriminate].
  rewrite bind_lift.
  destruct (floordiv _ _); [|discriminate].
  rewrite bind_run. cbn [put_synapses ret np.data np.vec].
  intros H. inversion H. cbn. apply Nat.eqb_refl.
Qed.

End Convolution.

(** ** Further properties of the neuron dynamics *)

Section MoreNeuronDynamics.

Import NeuronGroup.
Import Examples.
Local Open Scope Q_scope.

Lemma Forall_zipWith (A B C : Type) (P : A -> Prop) (P' : B -> Prop)
  (P'' : C -> Prop) (f : A -> B -> C) l1 l2 :
  (forall a b, P a -> P' b -> P'' (f a b)) ->
  Forall P l1 -> Forall P' l2 -> Forall P'' (zipWith f l1 l2).
Proof.
  intros Hf H1; revert l2.
  induction H1 as [|a l1 Ha H1 IH]; intros l2 H2; [constructor|].
  destruct H2 as [|b l2 Hb H2]; simpl; constructor; auto.
Qed.

Lemma Forall_map_intro (A B : Type) (P : A -> Prop) (P' : B -> Prop)
  (f : A -> B) l :
  (forall a, P a -> P' (f a)) -> Forall P l -> Forall P' (map f l).
Proof. intros Hf H; induction H; simpl; constructor; auto. Qed.

(** Detection followed by reset, as one map over the voltages. *)
Lemma detect_reset_map (thr vr : Q) (l : list Q) :
  zipWith (fun (sp : bool) x => if sp then vr else x)
          (map (fun x => Qge_bool x thr) l) l
  = map (fun x => if Qge_bool x thr then vr else x) l.
Proof. now rewrite zipWith_map_l, zipWith_diag. Qed.

Lemma Qge_bool_below (x y thr : Q) : x == y -> y < thr -> Qge_bool x thr = false.
Proof.
  intros E H. unfold Qge_bool.
  destruct (Qle_bool thr x) eqn:Hb; [|reflexivity].
  apply Qle_bool_iff in Hb. rewrite E in Hb.
  exfalso. exact (Qlt_not_le _ _ H Hb).
Qed.



(** *** Quiescence *)

(** One tick of the base LIF of LIFs.py on a population at rest below the
    threshold, with no input current. *)
Lemma LIF_rest_step (n : t) :
  v_rest n < threshold n ->
  length (I n) = length (v n) ->
  Forall (fun x => x == v_rest n) (v n) ->
  Forall (fun c => c == 0) (I n) ->
  let n' := LIFs.LIF.new_iteration n in
  v_rest n' = v_rest n /\ threshold n' = threshold n /\ I n' = I n /\
  length (v n') = length (v n) /\
  Forall (fun x => x == v_rest n) (v n') /\
  Forall (fun sp => sp = false) (spikes n').
Proof.
  intros Hlt Hlen Hv Hi n'. subst n'.
  unfold LIFs.LIF.new_iteration, LIFs.LIF._dv_dt, LIFs.LIF._fire.
  cbn [v I spikes set_v set_spikes v_rest v_reset threshold R tau].
  rewrite detect_reset_map.
  assert (Hv' : Forall (fun x => x == v_rest n)
                  (map (fun x => if Qge_bool x (threshold n) then v_reset n else x)
                       (v n))).
  { apply Forall_map_intro with (P := fun x => x == v_rest n); [|exact Hv].
    intros x Hx. now rewrite (Qge_bool_below x (v_rest n) (threshold n)). }
  repeat split.
  - rewrite zipWith_length, !length_map, zipWith_length, !length_map, Hlen.
    now rewrite !Nat.min_id.
  - apply Forall_zipWith
      with (P := fun x => x == v_rest n) (P' := fun d => d == 0);
      [| exact Hv' |].
    + intros a b Ha Hb. rewrite Ha, Hb. ring.
    + apply Forall_map_intro with (P := fun d => d == 0).
      * intros d Hd. rewrite Hd. unfold Qdiv. ring.
      * apply Forall_zipWith
          with (P := fun d => d == 0) (P' := fun d => d == 0).
        -- intros a b Ha Hb. rewrite Ha, Hb. ring.
        -- apply Forall_map_intro with (P := fun x => x == v_rest n);
             [|exact Hv'].
           intros x Hx. rewrite Hx. ring.
        -- apply Forall_map_intro with (P := fun c => c == 0); [|exact Hi].
           intros c Hc. rewrite Hc. ring.
  - apply Forall_map_intro with (P := fun x => x == v_rest n); [|exact Hv].
    intros x Hx. exact (Qge_bool_below x (v_rest n) (threshold n) Hx Hlt).
Qed.

(** Quiescence of the base LIF of LIFs.py: with [tau] not zero, a
    population at rest below the threshold with no input current is at rest
    after any number of ticks, and no tick shows a spike. *)
Theorem LIF_quiescent (n : t) (k : nat) :
  v_rest n < threshold n ->
  ~ tau n == 0 ->
  length (I n) = length (v n) ->
  Forall (fun x => x == v_rest n) (v n) ->
  Forall (fun c => c == 0) (I n) ->
  let n' := iterate LIFs.LIF.new_iteration (S k) n in
  length (v n') = length (v n) /\
  Forall (fun x => x == v_rest n) (v n') /\
  Forall (fun sp => sp = false) (spikes n').
Proof.
  intros Hlt _ Hlen Hv Hi n'. subst n'.
  assert (H : let m := iterate LIFs.LIF.new_iteration k n in
              v_rest m = v_rest n /\ threshold m = threshold n /\
              I m = I n /\ length (v m) = length (v n) /\
              Forall (fun x => x == v_rest n) (v m)).
  { induction k as [|k IH]; [cbn; auto|].
    destruct IH as (E1 & E2 & E3 & E4 & E5).
    cbn [iterate].
    destruct (LIF_rest_step (iterate LIFs.LIF.new_iteration k n))
      as (F1 & F2 & F3 & F4 & F5 & _);
      rewrite ?E1, ?E2, ?E3, ?E4; auto.
    cbv zeta. rewrite E1 in F1, F5. rewrite E2 in F2. rewrite E3 in F3.
    rewrite E4 in F4. auto. }
  destruct H as (E1 & E2 & E3 & E4 & E5).
  cbn [iterate].
  destruct (LIF_rest_step (iterate LIFs.LIF.new_iteration k n))
    as (_ & _ & _ & F4 & F5 & F6);
    rewrite ?E1, ?E2, ?E3, ?E4; auto.
  rewrite E1 in F5. rewrite E4 in F4. auto.
Qed.

Lemma LIF_quiescent_witness :
  let n' := iterate LIFs.LIF.new_iteration (S 5) quiet in
  length (v n') = length (v quiet) /\
  Forall (fun x => x == v_rest quiet) (v n') /\
  Forall (fun sp => sp = false) (spikes n').
Proof.
  refine (LIF_quiescent quiet 5 _ _ _ _ _).
  - vm_compute. reflexivity.
  - vm_compute. discriminate.
  - vm_compute. reflexivity.
  - vm_compute. repeat constructor.
  - vm_compute. repeat constructor.
Defined.

(** One tick of the single-step LIF of neurons/LIF.py on a population at
    rest below the threshold, with no input current. *)
Lemma single_step_rest_step (n : t) :
  v_rest n < threshold n ->
  length (I n) = length (v n) ->
  Forall (fun x => x == v_rest n) (v n) ->
  Forall (fun c => c == 0) (I n) ->
  let n' := neurons_LIF.new_iteration n in
  v_rest n' = v_rest n /\ threshold n' = threshold n /\ I n' = I n /\
  length (v n') = length (v n) /\
  Forall (fun x => x == v_rest n) (v n') /\
  Forall (fun sp => sp = false) (spikes n').
Proof.
  intros Hlt Hlen Hv Hi n'. subst n'.
  unfold neurons_LIF.new_iteration.
  cbn [v I spikes set_v set_spikes v_rest v_reset threshold R tau dt].
  rewrite detect_reset_map.
  set (v1 := zipWith Qplus (v n) _).
  assert (Hv1 : Forall (fun x => x == v_rest n) v1).
  { unfold v1.
    apply Forall_zipWith
      with (P := fun x => x == v_rest n) (P' := fun d => d == 0);
      [| exact Hv |].
    - intros a b Ha Hb. rewrite Ha, Hb. ring.
    - apply Forall_map_intro with (P := fun d => d == 0).
      + intros d Hd. rewrite Hd. unfold Qdiv. ring.
      + apply Forall_zipWith
          with (P := fun d => d == 0) (P' := fun d => d == 0).
        * intros a b Ha Hb. rewrite Ha, Hb. ring.
        * apply Forall_map_intro with (P := fun x => x == v_rest n);
            [|exact Hv].
          intros x Hx. rewrite Hx. ring.
        * apply Forall_map_intro with (P := fun c => c == 0); [|exact Hi].
          intros c Hc. rewrite Hc. ring. }
  repeat split.
  - rewrite length_map. unfold v1.
    rewrite zipWith_length, !length_map, zipWith_length, !length_map, Hlen.
    now rewrite !Nat.min_id.
  - apply Forall_map_intro with (P := fun x => x == v_rest n); [|exact Hv1].
    intros x Hx. now rewrite (Qge_bool_below x (v_rest n) (threshold n)).
  - apply Forall_map_intro with (P := fun x => x == v_rest n); [|exact Hv1].
    intros x Hx. exact (Qge_bool_below x (v_rest n) (threshold n) Hx Hlt).
Qed.

(** Quiescence of the single-step LIF of neurons/LIF.py: with [tau] not
    zero, a population at rest below the threshold with no input current
    is at rest after any number of ticks, and no tick shows a spike. *)
Theorem single_step_quiescent (n : t) (k : nat) :
  v_rest n < threshold n ->
  ~ tau n == 0 ->
  length (I n) = length (v n) ->
  Forall (fun x => x == v_rest n) (v n) ->
  Forall (fun c => c == 0) (I n) ->
  let n' := iterate neurons_LIF.new_iteration (S k) n in
  length (v n') = length (v n) /\
  Forall (fun x => x == v_rest n) (v n') /\
  Forall (fun sp => sp = false) (spikes n').
Proof.
  intros Hlt _ Hlen Hv Hi n'. subst n'.
  assert (H : let m := iterate neurons_LIF.new_iteration k n in
              v_rest m = v_rest n /\ threshold m = threshold n /\
              I m = I n /\ length (v m) = length (v n) /\
              Forall (fun x => x == v_rest n) (v m)).
  { induction k as [|k IH]; [cbn; auto|].
    destruct IH as (E1 & E2 & E3 & E4 & E5).
    cbn [iterate].
    destruct (single_step_rest_step (iterate neurons_LIF.new_iteration k n))
      as (F1 & F2 & F3 & F4 & F5 & _);
      rewrite ?E1, ?E2, ?E3, ?E4; auto.
    cbv zeta. rewrite E1 in F1, F5. rewrite E2 in F2. rewrite E3 in F3.
    rewrite E4 in F4. auto. }
  destruct H as (E1 & E2 & E3 & E4 & E5).
  cbn [iterate].
  destruct (single_step_rest_step (iterate neurons_LIF.new_iteration k n))
    as (_ & _ & _ & F4 & F5 & F6);
    rewrite ?E1, ?E2, ?E3, ?E4; auto.
  rewrite E1 in F5. rewrite E4 in F4. auto.
Qed.

Lemma single_step_quiescent_witness :
  let n' := iterate neurons_LIF.new_iteration (S 5) quiet in
  length (v n') = length (v quiet) /\
  Forall (fun x => x == v_rest quiet) (v n') /\
  Forall (fun sp => sp = false) (spikes n').
Proof.
  refine (single_step_quiescent quiet 5 _ _ _ _ _).
  - vm_compute. reflexivity.
  - vm_compute. discriminate.
  - vm_compute. reflexivity.
  - vm_compute. repeat constructor.
  - vm_compute. repeat constructor.
Defined.

(** *** Voltages seen at the end of a tick *)

(** The single-step LIF resets last: with [tau] not zero, an input
    current of the length of the voltages and [v_reset] below the
    threshold, the tick keeps one voltage per neuron and every voltage it
    leaves is below the threshold, whatever the values of the input
    current. *)
Theorem single_step_ends_below_threshold (n : t) :
  v_reset n < threshold n ->
  ~ tau n == 0 ->
  length (I n) = length (v n) ->
  length (v (neurons_LIF.new_iteration n)) = length (v n) /\
  Forall (fun x => x < threshold n) (v (neurons_LIF.new_iteration n)).
Proof.
  intros Hlt _ Hlen. unfold neurons_LIF.new_iteration.
  cbn [v I spikes set_v set_spikes v_rest v_reset threshold R tau dt].
  rewrite detect_reset_map. split.
  - rewrite length_map, zipWith_length, !length_map, zipWith_length,
      !length_map, Hlen.
    now rewrite !Nat.min_id.
  - apply Forall_forall. intros x Hx. apply in_map_iff in Hx.
    destruct Hx as (x0 & <- & _).
    unfold Qge_bool. destruct (Qle_bool (threshold n) x0) eqn:Hb; [exact Hlt|].
    apply Qnot_le_lt. intros H. apply Qle_bool_iff in H. congruence.
Qed.

Lemma single_step_ends_below_threshold_witness :
  length (v (neurons_LIF.new_iteration above_threshold))
  = length (v above_threshold) /\
  Forall (fun x => x < threshold above_threshold)
         (v (neurons_LIF.new_iteration above_threshold)).
Proof.
  refine (single_step_ends_below_threshold above_threshold _ _ _).
  - vm_compute. reflexivity.
  - vm_compute. discriminate.
  - vm_compute. reflexivity.
Defined.

(** One tick of ELIF, neuron by neuron: the spike is read off the voltage
    the tick starts with, a spiking neuron is reset, and the reset voltage
    is moved by [(v_rest - v + R * I + sharpness * exp ((v - theta_rh) /
    sharpness)) / tau]; the base LIF is the same without the exponential
    term. *)
Theorem LIF_ELIF_tick (exp : Q -> Q) (n : t) (i : nat) (x c : Q) :
  nth_error (v n) i = Some x ->
  nth_error (I n) i = Some c ->
  let sp := Qge_bool x (threshold n) in
  let x0 := if sp then v_reset n else x in
  nth_error (spikes (LIFs.LIF.new_iteration n)) i = Some sp /\
  nth_error (v (LIFs.LIF.new_iteration n)) i
  = Some (x0 + (v_rest n - x0 + R n * c) / tau n) /\
  nth_error (spikes (LIFs.ELIF.new_iteration exp n)) i = Some sp /\
  nth_error (v (LIFs.ELIF.new_iteration exp n)) i
  = Some (x0 + (v_rest n - x0 + R n * c
                + sharpness n * exp ((x0 - theta_rh n) / sharpness n))
               / tau n).
Proof.
  intros Hv Hi sp x0.
  assert (Hs : nth_error (spikes (LIFs.LIF._fire n)) i = Some sp).
  { rewrite fire_spikes. now rewrite nth_error_map_some, Hv. }
  assert (H0 : nth_error (v (LIFs.LIF._fire n)) i = Some x0).
  { unfold LIFs.LIF._fire. cbn [v spikes set_v set_spikes v_reset threshold].
    now rewrite zipWith_nth_error, nth_error_map_some, Hv. }
  repeat split.
  - exact Hs.
  - unfold LIFs.LIF.new_iteration, LIFs.LIF._dv_dt.
    cbn [v set_v I R tau v_rest].
    rewrite zipWith_nth_error, H0, nth_error_map_some.
    rewrite zipWith_nth_error, !nth_error_map_some, H0.
    change (I (LIFs.LIF._fire n)) with (I n).
    now rewrite Hi.
  - exact Hs.
  - unfold LIFs.ELIF.new_iteration, LIFs.ELIF._dv_dt, LIFs.LIF._dv_dt.
    cbn [v set_v I R tau v_rest theta_rh sharpness].
    rewrite zipWith_nth_error, H0, nth_error_map_some.
    repeat rewrite zipWith_nth_error.
    repeat rewrite nth_error_map_some.
    rewrite H0. cbn [option_map].
    change (I (LIFs.LIF._fire n)) with (I n).
    now rewrite Hi.
Qed.

Lemma LIF_ELIF_tick_witness :
  let n := neuron (-57) 0 false in
  let exp := fun _ : Q => 1 in
  nth_error (spikes (LIFs.LIF.new_iteration n)) 0 = Some false /\
  nth_error (v (LIFs.LIF.new_iteration n)) 0
  = Some (-57 + (-65 - -57 + 1 * 80) / 10) /\
  nth_error (spikes (LIFs.ELIF.new_iteration exp n)) 0 = Some false /\
  nth_error (v (LIFs.ELIF.new_iteration exp n)) 0
  = Some (-57 + (-65 - -57 + 1 * 80 + 5 * 1) / 10).
Proof.
  apply (LIF_ELIF_tick (fun _ => 1) (neuron (-57) 0 false) 0 (-57) 80);
    reflexivity.
Defined.

End MoreNeuronDynamics.

(** ** Further properties of the plasticity *)

Section MorePlasticity.

Import Examples Properties.
Local Open Scope Q_scope.

Lemma add_trace_spikes (tau : Q) (g : NeuronGroup.t) :
  length (NeuronGroup.trace g) = length (NeuronGroup.spikes g) ->
  np.add (np.smap (fun x => - x / tau) (np.vec (NeuronGroup.trace g)))
         (np.vec (map b2q (NeuronGroup.spikes g)))
  = Ok (np.mk [length (NeuronGroup.trace g)]
          (zipWith Qplus (map (fun x => - x / tau) (NeuronGroup.trace g))
                   (map b2q (NeuronGroup.spikes g)))).
Proof.
  intros Hg. unfold np.add. rewrite binop_same_shape.
  - reflexivity.
  - cbn. now rewrite length_map, Hg.
  - cbn. rewrite length_map. lia.
  - apply vec_length.
Qed.

Lemma iadd_vec (t : list Q) (k : nat) (d : list Q) (c : Q) :
  length t = k -> length d = k ->
  np.iadd (np.vec t) (np.smap (fun x => x * c) (np.mk [k] d))
  = Ok (np.mk [k] (zipWith Qplus t (map (fun x => x * c) d))).
Proof.
  intros Ht Hd. rewrite iadd_same_shape.
  - cbn. now rewrite Ht.
  - cbn. now rewrite Ht.
  - cbn. rewrite length_map. lia.
Qed.

Lemma step_length (tau : Q) (g : NeuronGroup.t) :
  length (NeuronGroup.trace g) = length (NeuronGroup.spikes g) ->
  length (zipWith Qplus (map (fun x => - x / tau) (NeuronGroup.trace g))
                  (map b2q (NeuronGroup.spikes g)))
  = length (NeuronGroup.trace g).
Proof.
  intros Hg. rewrite zipWith_length, !length_map, <- Hg. apply Nat.min_id.
Qed.

(** The network after the two trace updates, between two different
    populations. *)
Lemma update_traces_run (net : Network) :
  let y := synapses net in
  let s := SynapseGroup.src y in
  let d := SynapseGroup.dst y in
  s <> d ->
  length (NeuronGroup.trace (groups net s))
  = length (NeuronGroup.spikes (groups net s)) ->
  length (NeuronGroup.trace (groups net d))
  = length (NeuronGroup.spikes (groups net d)) ->
  STDP.update_traces net
  = (Ok tt,
     mkNetwork
       (fun j =>
          if (j =? d)%nat
          then NeuronGroup.set_trace
                 (trace_step y (SynapseGroup.tau_minus y) (groups net d))
                 (groups net d)
          else if (j =? s)%nat
               then NeuronGroup.set_trace
                      (trace_step y (SynapseGroup.tau_plus y) (groups net s))
                      (groups net s)
               else groups net j)
       y).
Proof.
  intros y s d Hne Hs Hd. subst y s d.
  unfold STDP.update_traces.
  rewrite bind_get_synapses, bind_get_group, bind_lift, add_trace_spikes
    by exact Hs.
  rewrite bind_get_group, bind_lift, add_trace_spikes by exact Hd.
  rewrite bind_run. unfold STDP.iadd_trace.
  rewrite bind_get_group, bind_lift, iadd_vec
    by (try reflexivity; now apply step_length).
  cbn [put_group np.data].
  rewrite bind_get_group, bind_lift.
  cbn [groups synapses].
  destruct (Nat.eqb_spec (SynapseGroup.dst (synapses net))
                         (SynapseGroup.src (synapses net))) as [E|_];
    [congruence|].
  rewrite iadd_vec by (try reflexivity; now apply step_length).
  reflexivity.
Qed.

(** Both populations of a projection tagged or not, silent or not. *)
Lemma silent_trace_step (y : SynapseGroup.t) (tau : Q) (g : NeuronGroup.t) :
  length (NeuronGroup.trace g) = length (NeuronGroup.spikes g) ->
  Forall (fun sp => sp = false) (NeuronGroup.spikes g) ->
  Forall2 Qeq (trace_step y tau g)
          (map (fun x => x * (1 - SynapseGroup.dt y / tau))
               (NeuronGroup.trace g)).
Proof.
  unfold trace_step.
  generalize (NeuronGroup.trace g) (NeuronGroup.spikes g).
  intros t; induction t as [|x t IH]; intros [|sp sps] Hl Hs;
    try discriminate; [constructor|].
  inversion Hs as [|? ? E Hs']; subst.
  cbn [map zipWith]. constructor.
  - unfold b2q, Qdiv. ring.
  - apply IH; [now inversion Hl | exact Hs'].
Qed.

(** The steps after the trace updates do not write to any population. *)
Lemma apply_dw_groups dw net :
  groups (snd (STDP.apply_dw dw net)) = groups net.
Proof. unfold STDP.apply_dw. run_M; reflexivity. Qed.

Lemma new_iteration_groups net :
  groups (snd (STDP.new_iteration net)) = groups (snd (STDP.update_traces net)) /\
  groups (snd (learning_STDP.new_iteration net))
  = groups (snd (STDP.update_traces net)).
Proof.
  unfold STDP.new_iteration, learning_STDP.new_iteration.
  rewrite !bind_run.
  destruct (STDP.update_traces net) as [[[]|e] st]; cbn [snd];
    [|split; reflexivity].
  rewrite bind_get_synapses, !bind_run.
  split.
  - set (m := if existsb _ _ then STDP.conv2d_update else STDP.dense_update).
    assert (Hm : snd (m st) = st).
    { unfold m. destruct (existsb _ _);
        [apply conv2d_update_state | apply dense_update_state]. }
    destruct (m st) as [[dw|e] st']; cbn [snd] in Hm; subst st'.
    + apply apply_dw_groups.
    + reflexivity.
  - pose proof (dense_update_state st) as Hm.
    destruct (STDP.dense_update st) as [[dw|e] st']; cbn [snd] in Hm; subst st'.
    + apply apply_dw_groups.
    + reflexivity.
Qed.

Lemma set_trace_same g :
  NeuronGroup.set_trace (NeuronGroup.trace g) g = g.
Proof. destruct g; reflexivity. Qed.

Lemma set_trace_twice t t' g :
  NeuronGroup.set_trace t (NeuronGroup.set_trace t' g)
  = NeuronGroup.set_trace t g.
Proof. reflexivity. Qed.

(** A keyword argument naming one of the four parameters of the rule
    becomes that attribute of the projection. *)
Lemma setattr_float_params y name x :
  let y' := SynapseGroup.setattr y name (AFloat x) in
  SynapseGroup.tau_plus y'
  = (if String.eqb name "tau_plus" then x else SynapseGroup.tau_plus y) /\
  SynapseGroup.tau_minus y'
  = (if String.eqb name "tau_minus" then x else SynapseGroup.tau_minus y) /\
  SynapseGroup.a_plus y'
  = (if String.eqb name "a_plus" then x else SynapseGroup.a_plus y) /\
  SynapseGroup.a_minus y'
  = (if String.eqb name "a_minus" then x else SynapseGroup.a_minus y).
Proof.
  cbv zeta. unfold SynapseGroup.setattr.
  repeat match goal with
         | |- context [String.eqb name ?b] =>
             destruct (String.eqb_spec name b) as [->|?]
         end; cbn; repeat split; reflexivity.
Qed.

Lemma set_init_attrs_float_params kwargs y :
  let y' :=
    SynapseGroup.set_init_attrs_as_variables
      (map (fun kv => (fst kv, AFloat (snd kv))) kwargs) y in
  SynapseGroup.tau_plus y'
  = configured "tau_plus" kwargs (SynapseGroup.tau_plus y) /\
  SynapseGroup.tau_minus y'
  = configured "tau_minus" kwargs (SynapseGroup.tau_minus y) /\
  SynapseGroup.a_plus y'
  = configured "a_plus" kwargs (SynapseGroup.a_plus y) /\
  SynapseGroup.a_minus y'
  = configured "a_minus" kwargs (SynapseGroup.a_minus y).
Proof.
  unfold SynapseGroup.set_init_attrs_as_variables.
  revert y. induction kwargs as [|kv kwargs IH]; intros y;
    [cbn; repeat split; reflexivity|].
  cbn [map fold_left configured fst snd].
  destruct (IH (SynapseGroup.setattr y (fst kv) (AFloat (snd kv))))
    as (A1 & A2 & A3 & A4).
  destruct (setattr_float_params y (fst kv) (snd kv)) as (B1 & B2 & B3 & B4).
  cbv zeta in *. rewrite A1, A2, A3, A4, B1, B2, B3, B4.
  repeat split; reflexivity.
Qed.

(** [set_variables] of STDP (both files), for keyword arguments that are
    configuration values of the projection: the behaviour gets its tag;
    the keyword arguments are copied onto the projection, which keeps its
    two populations, its weights and its tags and has each of [tau_plus],
    [tau_minus], [a_plus], [a_minus] from the keyword argument of that
    name; the traces of its two populations become the vector the host
    returns for [get_neuron_vec()], of the size of each population; no
    other population and no other attribute of a population changes. *)
Theorem STDP_set_variables_effect (dm : NeuronGroup.vec_mode)
  (self : Behaviour) (net : Network) :
  SynapseGroup.well_typed (float_kwargs self) = true ->
  let r := STDP.set_variables dm self net in
  let y := synapses net in
  let y' := synapses (snd r) in
  let s := SynapseGroup.src y in
  let d := SynapseGroup.dst y in
  learning_STDP.set_variables dm self net = r /\
  fst r = Ok (add_tag "STDP" self) /\
  y' = SynapseGroup.set_init_attrs_as_variables (float_kwargs self) y /\
  (SynapseGroup.src y' = s /\ SynapseGroup.dst y' = d /\
   SynapseGroup.W y' = SynapseGroup.W y /\
   SynapseGroup.tags y' = SynapseGroup.tags y) /\
  (SynapseGroup.tau_plus y'
   = configured "tau_plus" (init_kwargs self) (SynapseGroup.tau_plus y) /\
   SynapseGroup.tau_minus y'
   = configured "tau_minus" (init_kwargs self) (SynapseGroup.tau_minus y) /\
   SynapseGroup.a_plus y'
   = configured "a_plus" (init_kwargs self) (SynapseGroup.a_plus y) /\
   SynapseGroup.a_minus y'
   = configured "a_minus" (init_kwargs self) (SynapseGroup.a_minus y)) /\
  NeuronGroup.trace (groups (snd r) s)
  = repeat (NeuronGroup.fill dm) (NeuronGroup.size (groups net s)) /\
  NeuronGroup.trace (groups (snd r) d)
  = repeat (NeuronGroup.fill dm) (NeuronGroup.size (groups net d)) /\
  (forall j, exists t,
      groups (snd r) j = NeuronGroup.set_trace t (groups net j)) /\
  (forall j, j <> s -> j <> d -> groups (snd r) j = groups net j).
Proof.
  intros _ r y y' s d. subst r y y' s d.
  destruct (STDP_set_variables_traces dm self net) as (Hd & Hs).
  cbv zeta in Hd, Hs.
  assert (Hy : synapses (snd (STDP.set_variables dm self net))
               = SynapseGroup.set_init_attrs_as_variables
                   (float_kwargs self) (synapses net))
    by reflexivity.
  destruct (syn_set_init_attrs_frame (float_kwargs self) (synapses net))
    as (Es & Ed & EW & Et).
  cbv zeta in Es, Ed, EW, Et.
  rewrite Hy in Hd, Hs. rewrite Ed in Hd. rewrite Es in Hs.
  split; [reflexivity|]. split; [reflexivity|]. split; [exact Hy|].
  rewrite Hy.
  split; [repeat split; assumption|].
  split; [apply set_init_attrs_float_params|].
  split; [exact Hs|]. split; [exact Hd|]. clear Hd Hs Hy.
  unfold STDP.set_variables, bind, get_synapses, put_synapses, get_group,
    put_group, ret.
  cbn [fst snd groups synapses].
  change (float_kwargs (add_tag "STDP" self)) with (float_kwargs self).
  rewrite Es, Ed.
  split.
  - intros j.
    destruct (Nat.eqb_spec j (SynapseGroup.dst (synapses net))) as [->|_].
    + destruct (Nat.eqb_spec (SynapseGroup.dst (synapses net))
                             (SynapseGroup.src (synapses net))) as [E|_].
      * rewrite E. eexists. apply set_trace_twice.
      * eexists. reflexivity.
    + destruct (Nat.eqb_spec j (SynapseGroup.src (synapses net))) as [->|_].
      * eexists; reflexivity.
      * exists (NeuronGroup.trace (groups net j)).
        now rewrite set_trace_same.
  - intros j H1 H2.
    destruct (Nat.eqb_spec j (SynapseGroup.dst (synapses net))); [contradiction|].
    destruct (Nat.eqb_spec j (SynapseGroup.src (synapses net))); [contradiction|].
    reflexivity.
Qed.

Lemma STDP_set_variables_effect_witness :
  let r := STDP.set_variables NeuronGroup.zeros stdp_kwargs dense_2_2 in
  SynapseGroup.well_typed (float_kwargs stdp_kwargs) = true /\
  (SynapseGroup.tau_plus (synapses (snd r)) = 15 /\
   SynapseGroup.tau_minus (synapses (snd r)) = 25 /\
   SynapseGroup.a_plus (synapses (snd r)) = 1 # 5 /\
   SynapseGroup.a_minus (synapses (snd r)) = 1 # 4) /\
  NeuronGroup.trace (groups (snd r) 0%nat) = [0; 0] /\
  NeuronGroup.trace (groups (snd r) 1%nat) = [0; 0].
Proof.
  assert (H : SynapseGroup.well_typed (float_kwargs stdp_kwargs) = true)
    by reflexivity.
  destruct (STDP_set_variables_effect NeuronGroup.zeros stdp_kwargs dense_2_2 H)
    as (_ & _ & _ & _ & P & T0 & T1 & _).
  split; [exact H|]. split; [exact P|]. split; [exact T0 | exact T1].
Defined.

(** The traces after a whole tick, between two different populations. *)
Lemma tick_traces (net : Network) :
  let y := synapses net in
  let s := SynapseGroup.src y in
  let d := SynapseGroup.dst y in
  s <> d ->
  length (NeuronGroup.trace (groups net s))
  = length (NeuronGroup.spikes (groups net s)) ->
  length (NeuronGroup.trace (groups net d))
  = length (NeuronGroup.spikes (groups net d)) ->
  let net1 := snd (STDP.new_iteration net) in
  let net2 := snd (learning_STDP.new_iteration net) in
  NeuronGroup.trace (groups net1 s)
  = trace_step y (SynapseGroup.tau_plus y) (groups net s) /\
  NeuronGroup.trace (groups net1 d)
  = trace_step y (SynapseGroup.tau_minus y) (groups net d) /\
  NeuronGroup.trace (groups net2 s)
  = trace_step y (SynapseGroup.tau_plus y) (groups net s) /\
  NeuronGroup.trace (groups net2 d)
  = trace_step y (SynapseGroup.tau_minus y) (groups net d).
Proof.
  intros y s d Hne Hs Hd net1 net2. subst net1 net2.
  destruct (new_iteration_groups net) as (G1 & G2).
  rewrite G1, G2.
  rewrite (update_traces_run net Hne Hs Hd).
  cbn [snd groups]. subst y s d.
  rewrite Nat.eqb_refl.
  destruct (Nat.eqb_spec (SynapseGroup.src (synapses net))
                         (SynapseGroup.dst (synapses net))) as [E|_];
    [contradiction|].
  rewrite Nat.eqb_refl.
  repeat split; reflexivity.
Qed.

(** Between two different populations a tick of STDP, in either file and
    whether or not the weight update raises afterwards, leaves each trace at
    [trace + (-trace / tau + spikes) * dt], with [tau_plus] for the source
    and [tau_minus] for the destination. *)
Theorem traces_after_tick (net : Network) :
  let y := synapses net in
  let s := SynapseGroup.src y in
  let d := SynapseGroup.dst y in
  s <> d ->
  length (NeuronGroup.trace (groups net s))
  = length (NeuronGroup.spikes (groups net s)) ->
  length (NeuronGroup.trace (groups net d))
  = length (NeuronGroup.spikes (groups net d)) ->
  let net1 := snd (STDP.new_iteration net) in
  let net2 := snd (learning_STDP.new_iteration net) in
  NeuronGroup.trace (groups net1 s)
  = trace_step y (SynapseGroup.tau_plus y) (groups net s) /\
  NeuronGroup.trace (groups net1 d)
  = trace_step y (SynapseGroup.tau_minus y) (groups net d) /\
  NeuronGroup.trace (groups net2 s)
  = trace_step y (SynapseGroup.tau_plus y) (groups net s) /\
  NeuronGroup.trace (groups net2 d)
  = trace_step y (SynapseGroup.tau_minus y) (groups net d).
Proof. exact (tick_traces net). Qed.

Lemma traces_after_tick_witness :
  let net := dense_2_3 in
  let y := synapses net in
  let s := SynapseGroup.src y in
  let d := SynapseGroup.dst y in
  let net1 := snd (STDP.new_iteration net) in
  let net2 := snd (learning_STDP.new_iteration net) in
  NeuronGroup.trace (groups net1 s)
  = trace_step y (SynapseGroup.tau_plus y) (groups net s) /\
  NeuronGroup.trace (groups net1 d)
  = trace_step y (SynapseGroup.tau_minus y) (groups net d) /\
  NeuronGroup.trace (groups net2 s)
  = trace_step y (SynapseGroup.tau_plus y) (groups net s) /\
  NeuronGroup.trace (groups net2 d)
  = trace_step y (SynapseGroup.tau_minus y) (groups net d).
Proof.
  refine (traces_after_tick dense_2_3 _ _ _).
  - vm_compute. discriminate.
  - vm_compute. reflexivity.
  - vm_compute. reflexivity.
Defined.

(** A silent population between two different populations: a tick
    multiplies each of its trace values by [1 - dt / tau]. *)
Theorem silent_traces_decay (net : Network) :
  let y := synapses net in
  let s := SynapseGroup.src y in
  let d := SynapseGroup.dst y in
  s <> d ->
  length (NeuronGroup.trace (groups net s))
  = length (NeuronGroup.spikes (groups net s)) ->
  length (NeuronGroup.trace (groups net d))
  = length (NeuronGroup.spikes (groups net d)) ->
  let net1 := snd (STDP.new_iteration net) in
  (Forall (fun sp => sp = false) (NeuronGroup.spikes (groups net s)) ->
   Forall2 Qeq (NeuronGroup.trace (groups net1 s))
     (map (fun x => x * (1 - SynapseGroup.dt y / SynapseGroup.tau_plus y))
          (NeuronGroup.trace (groups net s)))) /\
  (Forall (fun sp => sp = false) (NeuronGroup.spikes (groups net d)) ->
   Forall2 Qeq (NeuronGroup.trace (groups net1 d))
     (map (fun x => x * (1 - SynapseGroup.dt y / SynapseGroup.tau_minus y))
          (NeuronGroup.trace (groups net d)))).
Proof.
  intros y s d Hne Hs Hd net1. subst y s d net1.
  destruct (tick_traces net Hne Hs Hd) as (T1 & T2 & _).
  cbv zeta in T1, T2. rewrite T1, T2.
  split; intros H; now apply silent_trace_step.
Qed.

Lemma silent_traces_decay_witness :
  Forall2 Qeq
    (NeuronGroup.trace (groups (snd (STDP.new_iteration silent_2_2)) 0%nat))
    (map (fun x => x * (1 - 1 / 20)) [1; 2]) /\
  Forall2 Qeq
    (NeuronGroup.trace (groups (snd (STDP.new_iteration silent_2_2)) 1%nat))
    (map (fun x => x * (1 - 1 / 20)) [3; 0]).
Proof.
  assert (H1 : SynapseGroup.src (synapses silent_2_2)
               <> SynapseGroup.dst (synapses silent_2_2))
    by (vm_compute; discriminate).
  destruct (silent_traces_decay silent_2_2 H1 eq_refl eq_refl) as (A & B).
  split; [apply A | apply B]; vm_compute; repeat constructor.
Defined.

(** A recurrent projection (source and destination are one population):
    the one trace vector receives both updates of the tick, each computed
    from the trace the tick started with. *)
Theorem recurrent_trace_updated_twice (net : Network) :
  let y := synapses net in
  let g := groups net (SynapseGroup.src y) in
  SynapseGroup.src y = SynapseGroup.dst y ->
  length (NeuronGroup.trace g) = length (NeuronGroup.spikes g) ->
  NeuronGroup.trace
    (groups (snd (STDP.new_iteration net)) (SynapseGroup.src y))
  = zipWith Qplus
      (trace_step y (SynapseGroup.tau_plus y) g)
      (map (fun d => d * SynapseGroup.dt y)
         (zipWith Qplus
            (map (fun x => - x / SynapseGroup.tau_minus y) (NeuronGroup.trace g))
            (map b2q (NeuronGroup.spikes g)))).
Proof.
  intros y g E Hl. subst y g.
  destruct (new_iteration_groups net) as (G1 & _). rewrite G1. clear G1.
  unfold STDP.update_traces.
  rewrite bind_get_synapses, bind_get_group, bind_lift, add_trace_spikes
    by exact Hl.
  rewrite bind_get_group, bind_lift. rewrite <- E.
  rewrite add_trace_spikes by exact Hl.
  rewrite bind_run. unfold STDP.iadd_trace.
  rewrite bind_get_group, bind_lift, iadd_vec
    by (try reflexivity; now apply step_length).
  cbn [put_group np.data].
  rewrite bind_get_group, bind_lift.
  cbn [groups synapses]. rewrite Nat.eqb_refl.
  cbn [NeuronGroup.trace NeuronGroup.set_trace].
  rewrite iadd_vec.
  - cbn [put_group fst snd groups np.data]. now rewrite Nat.eqb_refl.
  - rewrite zipWith_length, length_map, step_length by exact Hl.
    apply Nat.min_id.
  - now apply step_length.
Qed.

Lemma recurrent_trace_updated_twice_witness :
  let net := recurrent_2 in
  let y := synapses net in
  let g := groups net (SynapseGroup.src y) in
  NeuronGroup.trace
    (groups (snd (STDP.new_iteration net)) (SynapseGroup.src y))
  = zipWith Qplus
      (trace_step y (SynapseGroup.tau_plus y) g)
      (map (fun d => d * SynapseGroup.dt y)
         (zipWith Qplus
            (map (fun x => - x / SynapseGroup.tau_minus y) (NeuronGroup.trace g))
            (map b2q (NeuronGroup.spikes g)))).
Proof.
  refine (recurrent_trace_updated_twice recurrent_2 _ _); reflexivity.
Defined.

(** *** The dense weight update *)

(** Two vectors of different lengths, neither of length one, do not
    broadcast. *)
Lemma binop_vec_mismatch f (a b : np.ndarray) (n m : nat) :
  np.shape a = [n] -> np.shape b = [m] ->
  n <> m -> n <> 1%nat -> m <> 1%nat ->
  np.binop f a b = Err ValueError.
Proof.
  intros Ha Hb H1 H2 H3. unfold np.binop, np.broadcast_shapes.
  rewrite Ha, Hb. cbn [rev app np.broadcast_rev]. unfold np.bdim.
  destruct (Nat.eqb_spec n m); [contradiction|].
  destruct (Nat.eqb_spec n 1); [contradiction|].
  destruct (Nat.eqb_spec m 1); [contradiction|].
  reflexivity.
Qed.

Lemma flat_map_const (A B : Type) (d : list B) (l : list A) :
  flat_map (fun _ => d) l = concat (repeat d (length l)).
Proof. induction l as [|a l IH]; simpl; [reflexivity | now rewrite IH]. Qed.

(** A vector added to a matrix is added to each of its rows. *)
Lemma binop_rows f (w d : list Q) (m n : nat) :
  length w = (m * n)%nat -> length d = n ->
  np.binop f (np.mk [m; n] w) (np.mk [n] d)
  = Ok (np.mk [m; n] (zipWith f w (concat (repeat d m)))).
Proof.
  intros Hw Hd. unfold np.binop, np.broadcast_shapes.
  cbn [np.shape rev app np.broadcast_rev]. unfold np.bdim.
  rewrite Nat.eqb_refl. cbn [option_map rev app]. cbv zeta.
  pose proof (as_strided_same (np.mk [m; n] w)) as Ew.
  cbn [np.shape np.data np.prod fold_right] in Ew.
  rewrite Ew by lia. cbn [np.data].
  f_equal. f_equal. f_equal.
  unfold np.as_strided. cbn [np.data np.shape np.indices].
  rewrite map_flat_map.
  rewrite flat_map_ext
    with (g := fun _ : nat => d).
  - now rewrite flat_map_const, length_seq.
  - intros i. rewrite map_map.
    pose proof (as_strided_same (np.mk [n] d)) as Ed.
    cbn [np.shape np.data np.prod fold_right] in Ed.
    assert (Hn : length d = (n * 1)%nat) by lia.
    specialize (Ed Hn). unfold np.as_strided in Ed.
    cbn [np.data np.shape] in Ed.
    injection Ed as Ed.
    etransitivity; [|exact Ed].
    apply map_ext. intros idx.
    unfold np.bstrides. cbn [length Nat.sub repeat app].
    rewrite offset_cons, Nat.mul_0_r. reflexivity.
Qed.

(** The populations of the projection after the trace updates. *)
Lemma update_traces_groups (net : Network) :
  let y := synapses net in
  let s := SynapseGroup.src y in
  let d := SynapseGroup.dst y in
  s <> d ->
  length (NeuronGroup.trace (groups net s))
  = length (NeuronGroup.spikes (groups net s)) ->
  length (NeuronGroup.trace (groups net d))
  = length (NeuronGroup.spikes (groups net d)) ->
  exists st,
    STDP.update_traces net = (Ok tt, st) /\
    synapses st = y /\
    groups st s
    = NeuronGroup.set_trace
        (trace_step y (SynapseGroup.tau_plus y) (groups net s)) (groups net s) /\
    groups st d
    = NeuronGroup.set_trace
        (trace_step y (SynapseGroup.tau_minus y) (groups net d)) (groups net d).
Proof.
  intros y s d Hne Hs Hd. subst y s d.
  eexists. split; [apply update_traces_run; assumption|].
  cbn [groups synapses]. rewrite !Nat.eqb_refl.
  destruct (Nat.eqb_spec (SynapseGroup.src (synapses net))
                         (SynapseGroup.dst (synapses net))) as [E|_];
    [contradiction|].
  repeat split; reflexivity.
Qed.

Lemma trace_step_length (y : SynapseGroup.t) (tau : Q) (g : NeuronGroup.t) :
  length (NeuronGroup.trace g) = length (NeuronGroup.spikes g) ->
  length (trace_step y tau g) = length (NeuronGroup.trace g).
Proof.
  intros Hg. unfold trace_step.
  rewrite zipWith_length, length_map, step_length by exact Hg.
  apply Nat.min_id.
Qed.

(** Populations of different sizes, neither of size one: the dense branch
    cannot form its products.  The tick raises [ValueError] in both files
    and leaves the projection as it was, after the traces were updated. *)
Theorem dense_size_mismatch_raises (net : Network) (m n : nat) :
  let y := synapses net in
  let s := SynapseGroup.src y in
  let d := SynapseGroup.dst y in
  s <> d ->
  length (NeuronGroup.trace (groups net s)) = m ->
  length (NeuronGroup.spikes (groups net s)) = m ->
  length (NeuronGroup.trace (groups net d)) = n ->
  length (NeuronGroup.spikes (groups net d)) = n ->
  m <> n -> m <> 1%nat -> n <> 1%nat ->
  existsb (String.eqb "conv2d") (SynapseGroup.tags y) = false ->
  fst (STDP.new_iteration net) = Err ValueError /\
  fst (learning_STDP.new_iteration net) = Err ValueError /\
  synapses (snd (STDP.new_iteration net)) = y /\
  synapses (snd (learning_STDP.new_iteration net)) = y /\
  NeuronGroup.trace (groups (snd (STDP.new_iteration net)) s)
  = trace_step y (SynapseGroup.tau_plus y) (groups net s) /\
  NeuronGroup.trace (groups (snd (STDP.new_iteration net)) d)
  = trace_step y (SynapseGroup.tau_minus y) (groups net d).
Proof.
  intros y s d Hne Hts Hss Htd Hsd Hmn Hm Hn Htag. subst y s d.
  assert (Hs : length (NeuronGroup.trace
                         (groups net (SynapseGroup.src (synapses net))))
               = length (NeuronGroup.spikes
                           (groups net (SynapseGroup.src (synapses net)))))
    by congruence.
  assert (Hd : length (NeuronGroup.trace
                         (groups net (SynapseGroup.dst (synapses net))))
               = length (NeuronGroup.spikes
                           (groups net (SynapseGroup.dst (synapses net)))))
    by congruence.
  destruct (tick_traces net Hne Hs Hd) as (T1 & T2 & _).
  destruct (update_traces_groups net Hne Hs Hd) as (st & Hrun & Hy & Gs & Gd).
  assert (Hdense : STDP.dense_update st = (Err ValueError, st)).
  { unfold STDP.dense_update.
    rewrite bind_get_synapses, !bind_get_group, bind_lift, Hy, Gs, Gd.
    unfold np.mul.
    rewrite binop_vec_mismatch with (n := n) (m := m); auto.
    - cbn. now rewrite trace_step_length, Htd by exact Hd.
    - cbn. now rewrite length_map, Hss. }
  assert (R1 : STDP.new_iteration net = (Err ValueError, st)).
  { unfold STDP.new_iteration.
    rewrite bind_run, Hrun, bind_get_synapses, bind_run, Hy, Htag, Hdense.
    reflexivity. }
  assert (R2 : learning_STDP.new_iteration net = (Err ValueError, st)).
  { unfold learning_STDP.new_iteration.
    rewrite bind_run, Hrun, bind_run, Hdense. reflexivity. }
  repeat split; try exact T1; try exact T2;
    rewrite ?R1, ?R2; cbn [fst snd]; auto.
Qed.

Lemma dense_size_mismatch_raises_witness :
  let net := dense_2_3 in
  let y := synapses net in
  let s := SynapseGroup.src y in
  let d := SynapseGroup.dst y in
  fst (STDP.new_iteration net) = Err ValueError /\
  fst (learning_STDP.new_iteration net) = Err ValueError /\
  synapses (snd (STDP.new_iteration net)) = y /\
  synapses (snd (learning_STDP.new_iteration net)) = y /\
  NeuronGroup.trace (groups (snd (STDP.new_iteration net)) s)
  = trace_step y (SynapseGroup.tau_plus y) (groups net s) /\
  NeuronGroup.trace (groups (snd (STDP.new_iteration net)) d)
  = trace_step y (SynapseGroup.tau_minus y) (groups net d).
Proof.
  refine (dense_size_mismatch_raises dense_2_3 2 3 _ _ _ _ _ _ _ _ _);
    vm_compute; try reflexivity; discriminate.
Defined.

Lemma mul_vec (c : Q) (a b : list Q) :
  length a = length b ->
  np.mul (np.scale c (np.vec a)) (np.vec b)
  = Ok (np.mk [length a] (zipWith Qmult (map (Qmult c) a) b)).
Proof.
  intros H. unfold np.mul. rewrite binop_same_shape.
  - reflexivity.
  - cbn. now rewrite H.
  - cbn. rewrite length_map. lia.
  - apply vec_length.
Qed.

(** Two different populations of the same size [n], and weights of shape
    [[n, n]]: the tick succeeds in both files, and every row of the weights
    receives the same vector, the elementwise products of traces and
    spikes: the weight at row [i] and column [j] becomes
    [clip (W[i][j] + dw[j] * dt)] with
    [dw[j] = a_plus * src.trace[j] * dst.spikes[j]
             - a_minus * dst.trace[j] * src.spikes[j]]. *)
Theorem dense_update_row_by_row (net : Network) (n : nat) (w : list Q) :
  let y := synapses net in
  let s := SynapseGroup.src y in
  let d := SynapseGroup.dst y in
  s <> d ->
  length (NeuronGroup.trace (groups net s)) = n ->
  length (NeuronGroup.spikes (groups net s)) = n ->
  length (NeuronGroup.trace (groups net d)) = n ->
  length (NeuronGroup.spikes (groups net d)) = n ->
  SynapseGroup.W y = np.mk [n; n] w ->
  length w = (n * n)%nat ->
  existsb (String.eqb "conv2d") (SynapseGroup.tags y) = false ->
  let net1 := snd (STDP.new_iteration net) in
  fst (STDP.new_iteration net) = Ok tt /\
  learning_STDP.new_iteration net = STDP.new_iteration net /\
  SynapseGroup.W (synapses net1)
  = np.mk [n; n]
      (map (np.clip1 (SynapseGroup.w_min y) (SynapseGroup.w_max y))
         (zipWith Qplus w
            (concat
               (repeat
                  (map (fun x => x * SynapseGroup.dt y)
                       (dense_dw y (groups net1 s) (groups net1 d)))
                  n)))).
Proof.
  intros y s d Hne Hts Hss Htd Hsd HW Hw Htag net1. subst y s d net1.
  assert (Hs : length (NeuronGroup.trace
                         (groups net (SynapseGroup.src (synapses net))))
               = length (NeuronGroup.spikes
                           (groups net (SynapseGroup.src (synapses net)))))
    by congruence.
  assert (Hd : length (NeuronGroup.trace
                         (groups net (SynapseGroup.dst (synapses net))))
               = length (NeuronGroup.spikes
                           (groups net (SynapseGroup.dst (synapses net)))))
    by congruence.
  destruct (update_traces_groups net Hne Hs Hd) as (st & Hrun & Hy & Gs & Gd).
  set (Ts := trace_step (synapses net) (SynapseGroup.tau_plus (synapses net))
               (groups net (SynapseGroup.src (synapses net)))) in *.
  set (Td := trace_step (synapses net) (SynapseGroup.tau_minus (synapses net))
               (groups net (SynapseGroup.dst (synapses net)))) in *.
  assert (LTs : length Ts = n)
    by (unfold Ts; now rewrite trace_step_length, Hts by exact Hs).
  assert (LTd : length Td = n)
    by (unfold Td; now rewrite trace_step_length, Htd by exact Hd).
  set (P := zipWith Qmult
              (map (Qmult (SynapseGroup.a_plus (synapses net))) Ts)
              (map b2q (NeuronGroup.spikes
                          (groups net (SynapseGroup.dst (synapses net)))))).
  set (Mn := zipWith Qmult
               (map (Qmult (- SynapseGroup.a_minus (synapses net))) Td)
               (map b2q (NeuronGroup.spikes
                           (groups net (SynapseGroup.src (synapses net)))))).
  assert (LP : length P = n)
    by (unfold P; rewrite zipWith_length, !length_map, LTs, Hsd;
        apply Nat.min_id).
  assert (LM : length Mn = n)
    by (unfold Mn; rewrite zipWith_length, !length_map, LTd, Hss;
        apply Nat.min_id).
  assert (Hdense : STDP.dense_update st
                   = (Ok (np.mk [n] Mn, np.mk [n] P), st)).
  { unfold STDP.dense_update.
    rewrite bind_get_synapses, !bind_get_group, bind_lift, Hy, Gs, Gd.
    cbn [NeuronGroup.trace NeuronGroup.spikes NeuronGroup.set_trace].
    rewrite mul_vec by now rewrite length_map, LTd, Hss.
    rewrite bind_lift.
    rewrite mul_vec by now rewrite length_map, LTs, Hsd.
    now rewrite LTd, LTs. }
  assert (Happly : STDP.apply_dw (np.mk [n] Mn, np.mk [n] P) st
                   = (Ok tt,
                      mkNetwork (groups st)
                        (SynapseGroup.set_W
                           (np.clip
                              (np.mk [n; n]
                                 (zipWith Qplus w
                                    (concat
                                       (repeat
                                          (map (fun x =>
                                                  x * SynapseGroup.dt (synapses net))
                                               (zipWith Qplus P Mn))
                                          n))))
                              (SynapseGroup.w_min (synapses net))
                              (SynapseGroup.w_max (synapses net)))
                           (synapses net)))).
  { unfold STDP.apply_dw.
    rewrite bind_get_synapses, bind_lift, Hy. cbn [fst snd].
    unfold np.add at 1.
    rewrite binop_same_shape
      by (cbn [np.shape np.data np.prod fold_right]; try reflexivity; lia).
    cbn [np.shape np.data].
    rewrite bind_lift, HW. unfold np.add, np.smap. cbn [np.shape np.data].
    rewrite binop_rows
      by (try assumption;
          rewrite length_map, zipWith_length, LP, LM; apply Nat.min_id).
    unfold put_synapses. reflexivity. }
  assert (R1 : STDP.new_iteration net
               = STDP.apply_dw (np.mk [n] Mn, np.mk [n] P) st).
  { unfold STDP.new_iteration.
    now rewrite bind_run, Hrun, bind_get_synapses, bind_run, Hy, Htag, Hdense. }
  assert (R2 : learning_STDP.new_iteration net
               = STDP.apply_dw (np.mk [n] Mn, np.mk [n] P) st).
  { unfold learning_STDP.new_iteration.
    now rewrite bind_run, Hrun, bind_run, Hdense. }
  rewrite R2, R1, Happly. cbn [fst snd synapses groups].
  rewrite Gs, Gd.
  repeat split; reflexivity.
Qed.

Lemma dense_update_row_by_row_witness :
  let net := dense_2_2 in
  let y := synapses net in
  let s := SynapseGroup.src y in
  let d := SynapseGroup.dst y in
  let net1 := snd (STDP.new_iteration net) in
  fst (STDP.new_iteration net) = Ok tt /\
  learning_STDP.new_iteration net = STDP.new_iteration net /\
  SynapseGroup.W (synapses net1)
  = np.mk [2; 2]%nat
      (map (np.clip1 (SynapseGroup.w_min y) (SynapseGroup.w_max y))
         (zipWith Qplus [1 # 2; 1 # 2; 1 # 2; 1 # 2]
            (concat
               (repeat
                  (map (fun x => x * SynapseGroup.dt y)
                       (dense_dw y (groups net1 s) (groups net1 d)))
                  2%nat)))).
Proof.
  refine (dense_update_row_by_row dense_2_2 2 [1 # 2; 1 # 2; 1 # 2; 1 # 2]
            _ _ _ _ _ _ _ _);
    vm_compute; try reflexivity; discriminate.
Defined.

(** With the bounds exchanged ([w_max < w_min]) a tick that assigns the
    weights sets every one of them to [w_max]. *)
Theorem inverted_bounds_collapse (net : Network) :
  SynapseGroup.w_max (synapses net) < SynapseGroup.w_min (synapses net) ->
  fst (STDP.new_iteration net) = Ok tt ->
  Forall (fun x => x == SynapseGroup.w_max (synapses net))
         (np.data (SynapseGroup.W (synapses (snd (STDP.new_iteration net))))).
Proof.
  intros Hlt Hok.
  destruct (new_iteration_cases net) as [(_ & w & H2) | ((e & H1) & _)];
    [|rewrite H1 in Hok; discriminate].
  rewrite H2. unfold np.clip, np.smap. cbn.
  apply Forall_forall. intros x Hx. apply in_map_iff in Hx.
  destruct Hx as (x0 & <- & _).
  unfold np.clip1. apply Q.min_r.
  apply Qle_trans with (SynapseGroup.w_min (synapses net)).
  - now apply Qlt_le_weak.
  - apply Q.le_max_r.
Qed.

Lemma inverted_bounds_collapse_witness :
  Forall (fun x => x == SynapseGroup.w_max (synapses inverted_2_2))
         (np.data
            (SynapseGroup.W (synapses (snd (STDP.new_iteration inverted_2_2))))).
Proof.
  refine (inverted_bounds_collapse inverted_2_2 _ _); vm_compute; reflexivity.
Defined.

End MorePlasticity.

(** ** Further properties of the convolutional projection *)

Section MoreConvolution.

Import Examples.

Lemma flat_map_rows_length (B : Type) (g : nat -> nat -> B) (M N : nat) :
  length (flat_map (fun m => map (g m) (seq 0 N)) (seq 0 M)) = M * N.
Proof.
  induction M as [|M IH]; [reflexivity|].
  rewrite seq_S, flat_map_app, length_app, IH. cbn [flat_map Nat.add].
  rewrite app_nil_r, length_map, length_seq. lia.
Qed.

(** The assignment of the source into the padded image succeeds whenever
    the source has the shape of the block. *)
Lemma assign_center_fits (img src : np.ndarray) (a h w c p0 p1 : nat) :
  np.shape img = [a; h + p0 * 2; w + p1 * 2; c] ->
  np.shape src = [a; h; w; c] ->
  length (np.data src) = np.prod [a; h; w; c] ->
  exists img',
    np.assign_center img p0 p1 src = Ok img' /\
    np.shape img' = [a; h + p0 * 2; w + p1 * 2; c].
Proof.
  intros Hi Hs Hl. unfold np.assign_center. rewrite Hi.
  replace (h + p0 * 2 - p0 - p0) with h by lia.
  replace (w + p1 * 2 - p1 - p1) with w by lia.
  rewrite <- Hs, broadcast_to_same by now rewrite Hs.
  eexists. split; reflexivity.
Qed.

(** The forward pass on a square activity of [n * n] elements, with a
    kernel of shape [[kh, kw, c, f]] and padding [(p0, p1)]: it comes down
    to the sign of the output lengths and to the contraction. *)
Lemma forward_square (self : Conv2D.self_t) (src : NeuronGroup.t)
  (y : SynapseGroup.t) (n kh kw c f p0 p1 : nat) (wd : list Q) :
  Conv2D.is1d self = true ->
  NeuronGroup.size src = n * n ->
  length (NeuronGroup.s src) = n * n ->
  SynapseGroup.W y = np.mk [kh; kw; c; f] wd ->
  SynapseGroup.pad y = PadPair p0 p1 ->
  exists img,
    np.shape img = [1; n + p0 * 2; n + p1 * 2; 1] /\
    Conv2D.forward self src y
    = (if (Z.of_nat n - Z.of_nat kh + 2 * Z.of_nat p0 + 1 <? 0)%Z
          || (Z.of_nat n - Z.of_nat kw + 2 * Z.of_nat p1 + 1 <? 0)%Z
       then Err ValueError
       else
         match
           np.tensordot
             (np.as_strided img
                [1;
                 Z.to_nat (Z.of_nat n - Z.of_nat kh + 2 * Z.of_nat p0 + 1);
                 Z.to_nat (Z.of_nat n - Z.of_nat kw + 2 * Z.of_nat p1 + 1);
                 kh; kw; 1]
                (firstn 3 (np.strides (np.shape img))
                 ++ skipn 1 (np.strides (np.shape img))))
             (np.mk [kh; kw; c; f] wd) 3
         with
         | Ok out => Ok (np.flatten out)
         | Err e => Err e
         end).
Proof.
  intros H1d Hsize Hlen HW Hpad.
  destruct (assign_center_fits
              (np.zeros [1; n + p0 * 2; n + p1 * 2; 1])
              (np.mk [1; n; n; 1] (NeuronGroup.s src)) 1 n n 1 p0 p1)
    as (img & Himg & Hshape);
    [reflexivity | reflexivity | cbn [np.data np.prod fold_right]; lia |].
  exists img. split; [exact Hshape|].
  unfold Conv2D.forward. rewrite H1d, Hsize, HW, Hpad.
  unfold int_sqrt. rewrite Nat.sqrt_square.
  unfold np.reshape. cbn [np.prod fold_right np.vec np.data np.shape].
  rewrite Nat.mul_1_r, Hlen, Nat.eqb_refl.
  cbn [rbind].
  unfold np.expand_dims.
  cbn [rbind np.ndim np.shape np.data length Nat.leb firstn skipn app].
  unfold Conv2D.__conv2d.
  cbn [np.shape_at np.shape nth_error rbind pad_pair fst snd np.shape_last
       rev app].
  rewrite Himg. cbn [rbind].
  destruct ((_ <? 0)%Z || (_ <? 0)%Z); reflexivity.
Qed.

(** The forward pass returns when the kernel fits the padded image and has
    one input channel, and the current it returns has
    [(n + 2 p0 + 1 - kh) * (n + 2 p1 + 1 - kw) * f] elements. *)
Theorem forward_output_length (self : Conv2D.self_t) (src : NeuronGroup.t)
  (y : SynapseGroup.t) (n kh kw f p0 p1 : nat) (wd : list Q) :
  Conv2D.is1d self = true ->
  NeuronGroup.size src = n * n ->
  length (NeuronGroup.s src) = n * n ->
  SynapseGroup.W y = np.mk [kh; kw; 1; f] wd ->
  SynapseGroup.pad y = PadPair p0 p1 ->
  kh <= n + 2 * p0 + 1 ->
  kw <= n + 2 * p1 + 1 ->
  exists cur,
    Conv2D.forward self src y = Ok cur /\
    length cur = (n + 2 * p0 + 1 - kh) * (n + 2 * p1 + 1 - kw) * f.
Proof.
  intros H1d Hsize Hlen HW Hpad Hh Hw.
  destruct (forward_square self src y n kh kw 1 f p0 p1 wd H1d Hsize Hlen HW Hpad)
    as (img & Hshape & ->).
  destruct (Z.ltb_spec (Z.of_nat n - Z.of_nat kh + 2 * Z.of_nat p0 + 1) 0);
    [lia|].
  destruct (Z.ltb_spec (Z.of_nat n - Z.of_nat kw + 2 * Z.of_nat p1 + 1) 0);
    [lia|].
  cbn [orb].
  replace (Z.to_nat (Z.of_nat n - Z.of_nat kh + 2 * Z.of_nat p0 + 1))
    with (n + 2 * p0 + 1 - kh) by lia.
  replace (Z.to_nat (Z.of_nat n - Z.of_nat kw + 2 * Z.of_nat p1 + 1))
    with (n + 2 * p1 + 1 - kw) by lia.
  unfold np.tensordot, np.as_strided.
  cbn [np.ndim np.shape np.data length Nat.leb andb Nat.sub firstn skipn app].
  rewrite list_nat_eqb_refl.
  eexists. split; [reflexivity|].
  cbn [np.flatten np.data].
  rewrite flat_map_rows_length.
  cbn [np.prod fold_right]. lia.
Qed.

Lemma forward_output_length_witness :
  exists cur,
    Conv2D.forward (Conv2D.mkSelf (mkBehaviour [] []) true) image_2_2
      (projection (np.mk [3; 3; 1; 2] (repeat (1 # 2)%Q 18))
                  ["conv2d"%string] (3, 3) 2 (PadPair 1 1))
    = Ok cur /\
    length cur = (2 + 2 * 1 + 1 - 3) * (2 + 2 * 1 + 1 - 3) * 2.
Proof.
  refine (forward_output_length _ image_2_2 _ 2 3 3 2 1 1 _ _ _ _ _ _ _ _);
    try reflexivity; vm_compute; try reflexivity; lia.
Defined.

(** A kernel that exceeds the padded image by more than one row or column
    gives a negative output length: the forward pass raises [ValueError]. *)
Theorem forward_kernel_too_large (self : Conv2D.self_t) (src : NeuronGroup.t)
  (y : SynapseGroup.t) (n kh kw c f p0 p1 : nat) (wd : list Q) :
  Conv2D.is1d self = true ->
  NeuronGroup.size src = n * n ->
  length (NeuronGroup.s src) = n * n ->
  SynapseGroup.W y = np.mk [kh; kw; c; f] wd ->
  SynapseGroup.pad y = PadPair p0 p1 ->
  n + 2 * p0 + 1 < kh \/ n + 2 * p1 + 1 < kw ->
  Conv2D.forward self src y = Err ValueError.
Proof.
  intros H1d Hsize Hlen HW Hpad Hk.
  destruct (forward_square self src y n kh kw c f p0 p1 wd H1d Hsize Hlen HW Hpad)
    as (img & Hshape & ->).
  destruct (Z.ltb_spec (Z.of_nat n - Z.of_nat kh + 2 * Z.of_nat p0 + 1) 0);
    [reflexivity|].
  destruct (Z.ltb_spec (Z.of_nat n - Z.of_nat kw + 2 * Z.of_nat p1 + 1) 0);
    [reflexivity|].
  lia.
Qed.

Lemma forward_kernel_too_large_witness :
  Conv2D.forward (Conv2D.mkSelf (mkBehaviour [] []) true) image_2_2
    (projection (np.mk [4; 1; 1; 1] [1; 1; 1; 1]%Q)
                ["conv2d"%string] (4, 1) 1 (PadPair 0 0))
  = Err ValueError.
Proof.
  refine (forward_kernel_too_large _ image_2_2 _ 2 4 1 1 1 0 0 _ _ _ _ _ _ _);
    try reflexivity.
  left. vm_compute. lia.
Defined.

(** The activity is read as one channel: a kernel with another number of
    input channels cannot be contracted against the windows, and the
    forward pass raises [ValueError]. *)
Theorem forward_channel_mismatch (self : Conv2D.self_t) (src : NeuronGroup.t)
  (y : SynapseGroup.t) (n kh kw c f p0 p1 : nat) (wd : list Q) :
  Conv2D.is1d self = true ->
  NeuronGroup.size src = n * n ->
  length (NeuronGroup.s src) = n * n ->
  SynapseGroup.W y = np.mk [kh; kw; c; f] wd ->
  SynapseGroup.pad y = PadPair p0 p1 ->
  c <> 1 ->
  Conv2D.forward self src y = Err ValueError.
Proof.
  intros H1d Hsize Hlen HW Hpad Hc.
  destruct (forward_square self src y n kh kw c f p0 p1 wd H1d Hsize Hlen HW Hpad)
    as (img & Hshape & ->).
  destruct (_ || _); [reflexivity|].
  unfold np.tensordot, np.as_strided.
  cbn [np.ndim np.shape np.data length Nat.leb andb Nat.sub firstn skipn app].
  unfold np.list_nat_eqb.
  destruct (list_eq_dec Nat.eq_dec [kh; kw; 1] [kh; kw; c]) as [E|_];
    [|reflexivity].
  congruence.
Qed.

Lemma forward_channel_mismatch_witness :
  Conv2D.forward (Conv2D.mkSelf (mkBehaviour [] []) true) image_2_2
    (projection (np.mk [1; 1; 2; 1] [1; 1]%Q)
                ["conv2d"%string] (1, 1) 1 (PadPair 0 0))
  = Err ValueError.
Proof.
  refine (forward_channel_mismatch _ image_2_2 _ 2 1 1 2 1 0 0 _ _ _ _ _ _ _);
    try reflexivity.
  discriminate.
Defined.

(** A source whose activity does not have [int (sqrt size)] squared
    elements cannot be reshaped: the tick raises [ValueError] and writes
    nothing. *)
Theorem forward_not_square (self : Conv2D.self_t) (net : Network) :
  let src := groups net (SynapseGroup.src (synapses net)) in
  length (NeuronGroup.s src)
  <> int_sqrt (NeuronGroup.size src) * int_sqrt (NeuronGroup.size src) ->
  Conv2D.forward self src (synapses net) = Err ValueError /\
  Conv2D.new_iteration self net = (Err ValueError, net).
Proof.
  intros src H. subst src.
  assert (F : Conv2D.forward self
                (groups net (SynapseGroup.src (synapses net))) (synapses net)
              = Err ValueError).
  { unfold Conv2D.forward, np.reshape.
    cbn [np.prod fold_right np.vec np.data]. rewrite Nat.mul_1_r.
    destruct (Nat.eqb_spec
                (int_sqrt (NeuronGroup.size
                             (groups net (SynapseGroup.src (synapses net))))
                 * int_sqrt (NeuronGroup.size
                               (groups net (SynapseGroup.src (synapses net)))))
                (length (NeuronGroup.s
                           (groups net (SynapseGroup.src (synapses net))))))
      as [E|_]; [congruence | reflexivity]. }
  split; [exact F|].
  unfold Conv2D.new_iteration.
  now rewrite bind_get_synapses, bind_get_group, bind_lift, F.
Qed.

Lemma forward_not_square_witness :
  let net := network (pop 3 [] [] [] [1; 2; 3]%Q) (pop 1 [] [] [0%Q] [])
                     (pointwise 1) in
  let self := Conv2D.mkSelf (mkBehaviour [] []) true in
  Conv2D.forward self (groups net (SynapseGroup.src (synapses net)))
                 (synapses net)
  = Err ValueError /\
  Conv2D.new_iteration self net = (Err ValueError, net).
Proof.
  refine (forward_not_square _ _ _). vm_compute. discriminate.
Defined.



(** Nothing in the projection clears the input current: two ticks add the
    contribution twice. *)
Theorem forward_accumulates (self : Conv2D.self_t) (net : Network)
  (cur : list Q) :
  let y := synapses net in
  let d := SynapseGroup.dst y in
  Conv2D.forward self (groups net (SynapseGroup.src y)) y = Ok cur ->
  length cur = length (NeuronGroup.I (groups net d)) ->
  let r1 := Conv2D.new_iteration self net in
  let r2 := Conv2D.new_iteration self (snd r1) in
  fst r1 = Ok tt /\
  fst r2 = Ok tt /\
  NeuronGroup.I (groups (snd r1) d)
  = zipWith Qplus (NeuronGroup.I (groups net d)) cur /\
  NeuronGroup.I (groups (snd r2) d)
  = zipWith Qplus (zipWith Qplus (NeuronGroup.I (groups net d)) cur) cur.
Proof.
  intros y d F Hl r1 r2. subst y d r1 r2.
  assert (Hrun : forall net' : Network,
             synapses net' = synapses net ->
             Conv2D.forward self
               (groups net' (SynapseGroup.src (synapses net))) (synapses net)
             = Ok cur ->
             length cur
             = length (NeuronGroup.I
                         (groups net' (SynapseGroup.dst (synapses net)))) ->
             Conv2D.new_iteration self net'
             = (Ok tt,
                mkNetwork
                  (fun j =>
                     if j =? SynapseGroup.dst (synapses net)
                     then NeuronGroup.set_I
                            (zipWith Qplus
                               (NeuronGroup.I
                                  (groups net' (SynapseGroup.dst (synapses net))))
                               cur)
                            (groups net' (SynapseGroup.dst (synapses net)))
                     else groups net' j)
                  (synapses net))).
  { intros net' Hy F' Hl'. unfold Conv2D.new_iteration.
    rewrite bind_get_synapses, bind_get_group, bind_lift, Hy, F'.
    rewrite bind_get_group, bind_lift.
    rewrite iadd_same_shape.
    - unfold put_group. now rewrite Hy.
    - cbn [np.shape np.vec]. now rewrite Hl'.
    - apply vec_length. }
  rewrite (Hrun net eq_refl F Hl). cbn [fst snd].
  rewrite Hrun.
  - cbn [fst snd groups]. rewrite !Nat.eqb_refl.
    repeat split; reflexivity.
  - reflexivity.
  - cbn [groups].
    destruct (Nat.eqb_spec (SynapseGroup.src (synapses net))
                           (SynapseGroup.dst (synapses net))) as [E|_];
      [rewrite <- E|]; exact F.
  - cbn [groups]. rewrite Nat.eqb_refl. cbn [NeuronGroup.I NeuronGroup.set_I].
    rewrite zipWith_length, <- Hl. now rewrite Nat.min_id.
Qed.

Lemma forward_accumulates_witness :
  let net := conv_net 3 [0; 0; 0; 0]%Q in
  let self := Conv2D.mkSelf (mkBehaviour [] []) true in
  let cur := map (fun x => (x * 3 + 0)%Q) [1; 2; 3; 4]%Q in
  let r1 := Conv2D.new_iteration self net in
  let r2 := Conv2D.new_iteration self (snd r1) in
  fst r1 = Ok tt /\
  fst r2 = Ok tt /\
  NeuronGroup.I (groups (snd r1) 1)
  = zipWith Qplus [0; 0; 0; 0]%Q cur /\
  NeuronGroup.I (groups (snd r2) 1)
  = zipWith Qplus (zipWith Qplus [0; 0; 0; 0]%Q cur) cur.
Proof.
  refine (forward_accumulates _ (conv_net 3 [0; 0; 0; 0]%Q) _ _ _);
    vm_compute; reflexivity.
Defined.

(** *** Initialisation of the projection *)

Section Init.

Import Properties.

Variable uniform : Q -> Q -> list nat -> np.ndarray.
Variable kwargs : list (string * attr).

(** [set_variables], step by step, up to the division that counts the
    channels. *)
Lemma set_variables_run (self : Conv2D.self_t) (net : Network) :
  let y := conv_config self kwargs (synapses net) in
  let src := groups net (SynapseGroup.src (synapses net)) in
  let r := int_sqrt (NeuronGroup.size src) in
  Conv2D.set_variables uniform kwargs self net
  = if r * r =? length (NeuronGroup.s src)
    then
      match floordiv (length (NeuronGroup.s src)) (length (NeuronGroup.s src)) with
      | Ok c =>
          (Ok (Conv2D.mkSelf (add_tag "conv2d" (Conv2D.base self)) true),
           mkNetwork (groups net)
             (SynapseGroup.set_W
                (uniform (SynapseGroup.w_min y) (SynapseGroup.w_max y)
                   [fst (SynapseGroup.kernel_size y);
                    snd (SynapseGroup.kernel_size y); c;
                    SynapseGroup.n_filters y])
                (SynapseGroup.set_pad (derived_pad y) y)))
      | Err e =>
          (Err e,
           mkNetwork (groups net) (SynapseGroup.set_pad (derived_pad y) y))
      end
    else
      (Err ValueError,
       mkNetwork (groups net) (SynapseGroup.set_pad (derived_pad y) y)).
Proof.
  intros y src r. subst src r.
  unfold Conv2D.set_variables, derived_pad.
  rewrite bind_get_synapses, bind_run. unfold put_synapses at 1.
  rewrite bind_get_group, bind_lift.
  cbn [groups synapses Conv2D.base Conv2D.is1d].
  change (SynapseGroup.set_init_attrs_as_variables
            (float_kwargs (add_tag "conv2d" (Conv2D.base self)) ++ kwargs)
            (synapses net)) with y.
  assert (Hsrc : forall p, SynapseGroup.src (SynapseGroup.set_pad p y)
                           = SynapseGroup.src (synapses net)).
  { intros p. cbn [SynapseGroup.set_pad SynapseGroup.src].
    apply (syn_set_init_attrs_frame
             (float_kwargs (Conv2D.base self) ++ kwargs) (synapses net)). }
  destruct (pad_truth (SynapseGroup.pad y));
    rewrite Hsrc;
    unfold np.reshape; cbn [np.prod fold_right np.vec np.data];
    rewrite Nat.mul_1_r;
    (destruct (Nat.eqb _ _); [|reflexivity]);
    rewrite bind_lift; cbn [np.data];
    (destruct (floordiv _ _); [|reflexivity]);
    rewrite bind_run; unfold put_synapses, ret; cbn [groups synapses];
    now rewrite Nat.eqb_refl.
Qed.

(** A keyword argument of another name leaves [pad] and [kernel_size] as
    they are; one of that name and of its type decides the attribute. *)
Lemma setattr_pad y1 y2 name a :
  SynapseGroup.typed name a = true ->
  (name = "pad"%string \/ SynapseGroup.pad y1 = SynapseGroup.pad y2) ->
  SynapseGroup.pad (SynapseGroup.setattr y1 name a)
  = SynapseGroup.pad (SynapseGroup.setattr y2 name a).
Proof.
  intros Ht H. destruct H as [->|H].
  - destruct a; try discriminate Ht; reflexivity.
  - destruct a; unfold SynapseGroup.setattr;
      repeat match goal with
             | |- context [String.eqb name ?b] => destruct (String.eqb name b)
             end; cbn; auto.
Qed.

Lemma setattr_kernel_size y1 y2 name a :
  SynapseGroup.typed name a = true ->
  (name = "kernel_size"%string
   \/ SynapseGroup.kernel_size y1 = SynapseGroup.kernel_size y2) ->
  SynapseGroup.kernel_size (SynapseGroup.setattr y1 name a)
  = SynapseGroup.kernel_size (SynapseGroup.setattr y2 name a).
Proof.
  intros Ht H. destruct H as [->|H].
  - destruct a; try discriminate Ht; reflexivity.
  - destruct a; unfold SynapseGroup.setattr;
      repeat match goal with
             | |- context [String.eqb name ?b] => destruct (String.eqb name b)
             end; cbn; auto.
Qed.

(** What the keyword arguments name does not depend on the projection
    they are copied onto. *)
Lemma set_init_attrs_decides_pad (kw : list (string * attr)) y1 y2 :
  SynapseGroup.well_typed kw = true ->
  (In "pad"%string (map fst kw)
   \/ SynapseGroup.pad y1 = SynapseGroup.pad y2) ->
  SynapseGroup.pad (SynapseGroup.set_init_attrs_as_variables kw y1)
  = SynapseGroup.pad (SynapseGroup.set_init_attrs_as_variables kw y2).
Proof.
  unfold SynapseGroup.set_init_attrs_as_variables, SynapseGroup.well_typed.
  revert y1 y2. induction kw as [|kv kw IH]; intros y1 y2 Ht Hp.
  - cbn in *. destruct Hp as [[]|Hp]. exact Hp.
  - cbn [forallb] in Ht. apply andb_prop in Ht. destruct Ht as (Hkv & Ht).
    cbn [fold_left]. apply IH; [exact Ht|].
    cbn [map] in Hp. destruct Hp as [[Hp|Hp]|Hp].
    + right. apply setattr_pad; [exact Hkv | now left].
    + now left.
    + right. apply setattr_pad; [exact Hkv | now right].
Qed.

Lemma set_init_attrs_decides_kernel_size (kw : list (string * attr)) y1 y2 :
  SynapseGroup.well_typed kw = true ->
  (In "kernel_size"%string (map fst kw)
   \/ SynapseGroup.kernel_size y1 = SynapseGroup.kernel_size y2) ->
  SynapseGroup.kernel_size (SynapseGroup.set_init_attrs_as_variables kw y1)
  = SynapseGroup.kernel_size (SynapseGroup.set_init_attrs_as_variables kw y2).
Proof.
  unfold SynapseGroup.set_init_attrs_as_variables, SynapseGroup.well_typed.
  revert y1 y2. induction kw as [|kv kw IH]; intros y1 y2 Ht Hp.
  - cbn in *. destruct Hp as [[]|Hp]. exact Hp.
  - cbn [forallb] in Ht. apply andb_prop in Ht. destruct Ht as (Hkv & Ht).
    cbn [fold_left]. apply IH; [exact Ht|].
    cbn [map] in Hp. destruct Hp as [[Hp|Hp]|Hp].
    + right. apply setattr_kernel_size; [exact Hkv | now left].
    + now left.
    + right. apply setattr_kernel_size; [exact Hkv | now right].
Qed.

(** [set_variables] on a non-empty source whose activity is a square, for
    keyword arguments that are configuration values of the projection.
    With [y] the projection that has the keyword arguments as attributes:
    the behaviour gets its tag and finds the activity one-dimensional; the
    projection becomes [y] with the padding derived from the [pad] and
    [kernel_size] of [y] (half the kernel size if [pad] counts as true,
    [(0, 0)] otherwise) and with a kernel drawn between the [w_min] and
    [w_max] of [y], of the kernel size and the filters of [y] and one
    input channel; its two populations, its tags and every population are
    as before. *)
Theorem set_variables_square (self : Conv2D.self_t) (net : Network) (n : nat) :
  let y := conv_config self kwargs (synapses net) in
  let src := groups net (SynapseGroup.src (synapses net)) in
  SynapseGroup.well_typed (float_kwargs (Conv2D.base self) ++ kwargs) = true ->
  NeuronGroup.size src = n * n ->
  length (NeuronGroup.s src) = n * n ->
  0 < n ->
  let r := Conv2D.set_variables uniform kwargs self net in
  let W' :=
    uniform (SynapseGroup.w_min y) (SynapseGroup.w_max y)
      [fst (SynapseGroup.kernel_size y); snd (SynapseGroup.kernel_size y); 1;
       SynapseGroup.n_filters y] in
  fst r = Ok (Conv2D.mkSelf (add_tag "conv2d" (Conv2D.base self)) true) /\
  groups (snd r) = groups net /\
  synapses (snd r) = SynapseGroup.set_W W' (SynapseGroup.set_pad (derived_pad y) y) /\
  SynapseGroup.pad (synapses (snd r)) = derived_pad y /\
  SynapseGroup.W (synapses (snd r)) = W' /\
  SynapseGroup.src (synapses (snd r)) = SynapseGroup.src (synapses net) /\
  SynapseGroup.dst (synapses (snd r)) = SynapseGroup.dst (synapses net) /\
  SynapseGroup.tags (synapses (snd r)) = SynapseGroup.tags (synapses net).
Proof.
  intros y src _ Hsize Hlen Hn r W'. subst src r W'.
  rewrite set_variables_run. cbv zeta. fold y.
  rewrite Hsize. unfold int_sqrt. rewrite Nat.sqrt_square, Hlen, Nat.eqb_refl.
  unfold floordiv.
  destruct (Nat.eqb_spec (n * n) 0) as [E|_]; [nia|].
  rewrite Nat.div_same by nia.
  destruct (syn_set_init_attrs_frame
              (float_kwargs (Conv2D.base self) ++ kwargs) (synapses net))
    as (Es & Ed & _ & Et).
  cbv zeta in Es, Ed, Et.
  repeat split; try reflexivity; assumption.
Qed.

(** On an empty source the reshape succeeds and the count of the channels
    divides by zero: [set_variables] raises [ZeroDivisionError] with the
    keyword arguments copied onto the projection and the padding derived
    from them, and the kernel not drawn. *)
Theorem set_variables_empty_source (self : Conv2D.self_t) (net : Network) :
  let y := conv_config self kwargs (synapses net) in
  let src := groups net (SynapseGroup.src (synapses net)) in
  SynapseGroup.well_typed (float_kwargs (Conv2D.base self) ++ kwargs) = true ->
  NeuronGroup.size src = 0 ->
  NeuronGroup.s src = [] ->
  let r := Conv2D.set_variables uniform kwargs self net in
  fst r = Err ZeroDivisionError /\
  groups (snd r) = groups net /\
  synapses (snd r) = SynapseGroup.set_pad (derived_pad y) y /\
  SynapseGroup.pad (synapses (snd r)) = derived_pad y /\
  SynapseGroup.W (synapses (snd r)) = SynapseGroup.W (synapses net).
Proof.
  intros y src _ Hsize Hs r. subst src r.
  rewrite set_variables_run. cbv zeta. fold y.
  rewrite Hsize, Hs. cbn.
  destruct (syn_set_init_attrs_frame
              (float_kwargs (Conv2D.base self) ++ kwargs) (synapses net))
    as (_ & _ & EW & _).
  cbv zeta in EW.
  repeat split; try reflexivity; assumption.
Qed.

(** [set_variables] run a second time: where [pad] and [kernel_size] are
    among the keyword arguments, the second run copies them again and
    derives the padding of the first run. *)
Theorem set_variables_twice_same_pad (self : Conv2D.self_t) (net : Network)
  (n : nat) :
  let src := groups net (SynapseGroup.src (synapses net)) in
  SynapseGroup.well_typed (float_kwargs (Conv2D.base self) ++ kwargs) = true ->
  In "pad"%string (map fst kwargs) ->
  In "kernel_size"%string (map fst kwargs) ->
  NeuronGroup.size src = n * n ->
  length (NeuronGroup.s src) = n * n ->
  0 < n ->
  let r1 := Conv2D.set_variables uniform kwargs self net in
  let self1 := Conv2D.mkSelf (add_tag "conv2d" (Conv2D.base self)) true in
  let r2 := Conv2D.set_variables uniform kwargs self1 (snd r1) in
  fst r1 = Ok self1 /\
  SynapseGroup.pad (synapses (snd r2)) = SynapseGroup.pad (synapses (snd r1)).
Proof.
  intros src Ht Hp Hk Hsize Hlen Hn r1 self1 r2. subst src r1 r2.
  assert (Hdiv : floordiv (n * n) (n * n) = Ok 1).
  { unfold floordiv. destruct (Nat.eqb_spec (n * n) 0) as [E|_]; [nia|].
    now rewrite Nat.div_same by nia. }
  destruct (syn_set_init_attrs_frame
              (float_kwargs (Conv2D.base self) ++ kwargs) (synapses net))
    as (Es & _).
  cbv zeta in Es.
  rewrite (set_variables_run self net). cbv zeta.
  rewrite Hsize. unfold int_sqrt.
  rewrite Nat.sqrt_square, Hlen, Nat.eqb_refl, Hdiv.
  cbn [fst snd]. split; [reflexivity|].
  rewrite set_variables_run. cbv zeta. cbn [groups synapses].
  cbn [SynapseGroup.src SynapseGroup.set_W SynapseGroup.set_pad].
  change (SynapseGroup.src (conv_config self kwargs (synapses net))
          = SynapseGroup.src (synapses net)) in Es.
  rewrite !Es, Hsize. unfold int_sqrt.
  rewrite Nat.sqrt_square, Hlen, Nat.eqb_refl, Hdiv.
  cbn [snd synapses SynapseGroup.pad SynapseGroup.set_pad SynapseGroup.set_W].
  unfold derived_pad, conv_config.
  change (Conv2D.base self1) with (add_tag "conv2d" (Conv2D.base self)).
  change (float_kwargs (add_tag "conv2d" (Conv2D.base self)))
    with (float_kwargs (Conv2D.base self)).
  set (kw := float_kwargs (Conv2D.base self) ++ kwargs) in *.
  assert (Hp' : In "pad"%string (map fst kw))
    by (unfold kw; rewrite map_app; apply in_or_app; now right).
  assert (Hk' : In "kernel_size"%string (map fst kw))
    by (unfold kw; rewrite map_app; apply in_or_app; now right).
  match goal with
  | |- context [SynapseGroup.set_init_attrs_as_variables kw
                  (SynapseGroup.set_W ?w ?z)] =>
      rewrite (set_init_attrs_decides_pad kw (SynapseGroup.set_W w z)
                 (synapses net) Ht (or_introl Hp')),
              (set_init_attrs_decides_kernel_size kw (SynapseGroup.set_W w z)
                 (synapses net) Ht (or_introl Hk'))
  end.
  reflexivity.
Qed.

End Init.

Lemma set_variables_square_witness :
  let uniform := fun (_ _ : Q) (sh : list nat) => np.zeros sh in
  let net :=
    network image_2_2 (pop 4 [] [] [0; 0; 0; 0]%Q [])
      (projection (np.mk [] []) [] (1, 1) 1 (PadFlag true)) in
  let r := Conv2D.set_variables uniform conv_kwargs conv_self net in
  SynapseGroup.well_typed
    (float_kwargs (Conv2D.base conv_self) ++ conv_kwargs) = true /\
  fst r = Ok (Conv2D.mkSelf (add_tag "conv2d" (Conv2D.base conv_self)) true) /\
  SynapseGroup.pad (synapses (snd r)) = PadPair 0 0 /\
  SynapseGroup.W (synapses (snd r)) = np.zeros [3; 3; 1; 2].
Proof.
  intros uniform net r.
  assert (H : SynapseGroup.well_typed
                (float_kwargs (Conv2D.base conv_self) ++ conv_kwargs) = true)
    by reflexivity.
  assert (Hn : 0 < 2) by lia.
  destruct (set_variables_square uniform conv_kwargs conv_self net 2 H
              eq_refl eq_refl Hn)
    as (A & _ & _ & P & W' & _).
  split; [exact H|]. split; [exact A|]. split; [exact P | exact W'].
Defined.

Lemma set_variables_empty_source_witness :
  let uniform := fun (_ _ : Q) (sh : list nat) => np.zeros sh in
  let net :=
    network (pop 0 [] [] [] []) (pop 0 [] [] [] [])
      (projection (np.mk [] []) [] (1, 1) 1 (PadFlag true)) in
  let r := Conv2D.set_variables uniform conv_kwargs conv_self net in
  SynapseGroup.well_typed
    (float_kwargs (Conv2D.base conv_self) ++ conv_kwargs) = true /\
  fst r = Err ZeroDivisionError /\
  SynapseGroup.pad (synapses (snd r)) = PadPair 0 0 /\
  SynapseGroup.W (synapses (snd r)) = np.mk [] [].
Proof.
  intros uniform net r.
  assert (H : SynapseGroup.well_typed
                (float_kwargs (Conv2D.base conv_self) ++ conv_kwargs) = true)
    by reflexivity.
  destruct (set_variables_empty_source uniform conv_kwargs conv_self net H
              eq_refl eq_refl)
    as (A & _ & _ & P & W').
  split; [exact H|]. split; [exact A|]. split; [exact P | exact W'].
Defined.

Lemma set_variables_twice_same_pad_witness :
  let uniform := fun (_ _ : Q) (sh : list nat) => np.zeros sh in
  let net :=
    network image_2_2 (pop 4 [] [] [0; 0; 0; 0]%Q [])
      (projection (np.mk [] []) [] (1, 1) 1 (PadFlag true)) in
  let r1 := Conv2D.set_variables uniform conv_kwargs conv_self net in
  let self1 :=
    Conv2D.mkSelf (add_tag "conv2d" (Conv2D.base conv_self)) true in
  let r2 := Conv2D.set_variables uniform conv_kwargs self1 (snd r1) in
  SynapseGroup.well_typed
    (float_kwargs (Conv2D.base conv_self) ++ conv_kwargs) = true /\
  In "pad"%string (map fst conv_kwargs) /\
  In "kernel_size"%string (map fst conv_kwargs) /\
  fst r1 = Ok self1 /\
  SynapseGroup.pad (synapses (snd r2)) = SynapseGroup.pad (synapses (snd r1)).
Proof.
  intros uniform net r1 self1 r2.
  assert (H : SynapseGroup.well_typed
                (float_kwargs (Conv2D.base conv_self) ++ conv_kwargs) = true)
    by reflexivity.
  assert (Hp : In "pad"%string (map fst conv_kwargs))
    by (cbn; auto).
  assert (Hk : In "kernel_size"%string (map fst conv_kwargs))
    by (cbn; auto).
  assert (Hn : 0 < 2) by lia.
  split; [exact H|]. split; [exact Hp|]. split; [exact Hk|].
  exact (set_variables_twice_same_pad uniform conv_kwargs conv_self net 2
           H Hp Hk eq_refl eq_refl Hn).
Defined.

End MoreConvolution.
